(** * concat.py: consolidation, projection and median imputation of
      per-subject acoustic-feature tables.

    The script is a straight-line pipeline over pandas data frames and
    scikit-learn's [SimpleImputer].  The embedding below follows it line by
    line.  The library operations the script calls are modelled by their
    documented behaviour on the inputs the script gives them:

    - a data frame is a row index plus an ordered list of named columns;
      column labels are unique (parquet files have unique column names, and
      [pd.concat] keeps them unique);
    - a cell is missing ([NaN]), a float64 number, an int64 number, a
      string that reads as a number, or another object; a column is the
      list of its cells and carries no dtype of its own: [pd.concat] and the
      column selections hand cells over as they are (the promotion of an
      int64 column that meets a float64 or an absent column in another file
      is not modelled), whereas the conversion to float64 that the imputer
      applies to the feature columns is;
    - a float64 is given by its value, a rational or an infinity, and
      float64 arithmetic is the exact operation followed by rounding to the
      nearest float64, ties to even, overflowing to infinity; the two zeros
      are not told apart;
    - the directory scan reads the listing of [base_path]; the two
      [to_parquet] calls write into a store of files indexed by path.
      Console output ([print]) is not modelled. *)

From Stdlib Require Import QArith Qreduction Qpower Lia Lqa ZArith.
From Stdlib Require Qcanon.
From stdpp Require Import base list strings gmap sorting.

Close Scope Q_scope.
Open Scope string_scope.
Open Scope list_scope.

(** ** float64 values *)

(** A float64 other than nan, by its value. *)
Inductive float64 : Type :=
| Fin (q : Q)
| PInf
| NInf.

(** [floor (log2 (n / d))] for positive [n] and [d]. *)
Definition floor_log2 (n d : Z) : Z :=
  let e := (Z.log2 n - Z.log2 d)%Z in
  if (0 <=? e)%Z then (if (d * 2 ^ e <=? n)%Z then e else (e - 1)%Z)
  else (if (d <=? n * 2 ^ (- e))%Z then e else (e - 1)%Z).

(** [num / den] rounded to the nearest integer, ties to even. *)
Definition round_half_even (num den : Z) : Z :=
  let q := (num / den)%Z in
  let r := (num mod den)%Z in
  match (2 * r ?= den)%Z with
  | Lt => q
  | Gt => (q + 1)%Z
  | Eq => if Z.even q then q else (q + 1)%Z
  end.

(** The float64 nearest to the positive rational [n / d]: 53 significant
    bits, least exponent -1074, infinity from [2 ^ 1024] on. *)
Definition round_pos (n d : Z) : float64 :=
  let e := floor_log2 n d in
  let p := Z.max (e - 52) (-1074) in
  if (0 <=? p)%Z then
    let m := round_half_even n (d * 2 ^ p) in
    if (2 ^ 1024 <=? m * 2 ^ p)%Z then PInf else Fin ((m * 2 ^ p)%Z # 1)
  else
    let m := round_half_even (n * 2 ^ (- p)) d in
    Fin (Qred (m # Z.to_pos (2 ^ (- p)))).

Definition fneg (f : float64) : float64 :=
  match f with
  | Fin q => Fin (- q)
  | PInf => NInf
  | NInf => PInf
  end.

(** Rounding of an exact result to float64. *)
Definition round64 (q : Q) : float64 :=
  let q' := Qred q in
  match Qnum q' with
  | Z0 => Fin 0
  | Zpos n => round_pos (Zpos n) (Zpos (Qden q'))
  | Zneg n => fneg (round_pos (Zpos n) (Zpos (Qden q')))
  end.

(** float64 sum of two finite values, and float64 division by two. *)
Definition fadd (x y : Q) : float64 := round64 (x + y).

Definition fhalf (f : float64) : float64 :=
  match f with
  | Fin q => round64 (q / 2)
  | PInf => PInf
  | NInf => NInf
  end.

(** Conversion of an int64 to float64. *)
Definition float_of_int (z : Z) : float64 := round64 (z # 1).

(** ** Cells and data frames *)

(** What a cell of a decoded file holds: a missing value, a float64, an
    int64, a string together with what [float()] reads in it ([None] when it
    reads nan), or an object that is no number (any other string, a
    timestamp, ...). *)
Inductive cell : Type :=
| NaN
| Num (f : float64)
| Int (z : Z)
| NumStr (s : string) (v : option float64)
| Obj (s : string).

Definition isna (c : cell) : bool :=
  match c with NaN => true | _ => false end.

Definition is_str (c : cell) : bool :=
  match c with NumStr _ _ | Obj _ => true | _ => false end.

Definition is_number (c : cell) : bool :=
  match c with Num _ | Int _ => true | _ => false end.

Record DataFrame : Type := mkDF {
  index : list nat;
  data : list (string * list cell)
}.

Definition columns (df : DataFrame) : list string := map fst (data df).

Definition nrows (df : DataFrame) : nat := length (index df).

Definition RangeIndex (n : nat) : list nat := seq 0 n.

Fixpoint assoc (c : string) (l : list (string * list cell)) : option (list cell) :=
  match l with
  | [] => None
  | (k, v) :: l' => if String.eqb c k then Some v else assoc c l'
  end.

(** [df[c]] for a single label. *)
Definition get_col (df : DataFrame) (c : string) : option (list cell) :=
  assoc c (data df).

Definition has_col (df : DataFrame) (c : string) : bool :=
  match get_col df c with Some _ => true | None => false end.

(** The cell of column [c] at row position [i]. *)
Definition cell_at (df : DataFrame) (c : string) (i : nat) : option cell :=
  match get_col df c with Some col => col !! i | None => None end.

(** Shape invariant of a data frame. *)
Definition wf (df : DataFrame) : Prop :=
  NoDup (columns df) /\
  Forall (fun kv => length (snd kv) = nrows df) (data df).

#[global] Instance wf_dec (df : DataFrame) : Decision (wf df).
Proof. unfold wf. apply _. Defined.

(** ** Errors raised by the script *)

Inductive error : Type :=
| FileNotFoundError
| NotADirectoryError
| DecodeError (path : string)
| NoObjectsToConcatenate
| KeyError (missing : list string)
| ArrowError
| NonNumericData
| InfiniteInput
| NoSamples
| ShapeMismatch (passed implied : nat)
| KeyLengthMismatch.

(** ** Constants of the script *)

Definition base_path : string := "parquets/no_wind/sujetos".

Definition columns_to_keep : list string :=
  ["ts"; "subject_id"; "week"; "date"; "cppall"; "zcrall"; "normpeakall";
   "spectralTiltall"; "LHratioall"; "H1H2all"; "periodicity"; "level"; "freq";
   "dBcms2"; "cppall_2048"; "acflow"; "mfdr"; "oq"; "naq"; "h1h2"; "voicedRMS"].

Definition features : list string :=
  ["cppall"; "zcrall"; "normpeakall"; "spectralTiltall"; "LHratioall";
   "H1H2all"; "periodicity"; "level"; "freq"; "dBcms2"; "cppall_2048";
   "acflow"; "mfdr"; "oq"; "naq"; "h1h2"].

Definition all_data_path : string := "parquets/no_wind/all_data.parquet".

Definition all_data_imputed_path : string :=
  "parquets/no_wind/all_data_imputed.parquet".

(** ** Directory scan (lines 9-20) *)

(** An entry of [base_path]: a directory with its own listing, or
    something else.  Each entry of a subject folder carries what
    [pd.read_parquet] returns on it, [None] when it cannot be decoded. *)
Inductive node : Type :=
| Folder (entries : list (string * option DataFrame))
| Other.

(** What [os.listdir(base_path)] finds: no such path, a path that is not
    a directory, or the entries of the directory in the order the system
    returns them. *)
Inductive listing : Type :=
| NoSuchPath
| NotADirectory
| Listed (entries : list (string * node)).

Definition startswith (s p : string) : bool := String.prefix p s.

Definition endswith (s p : string) : bool :=
  (String.length p <=? String.length s)%nat &&
  String.eqb (String.substring (String.length s - String.length p) (String.length p) s) p.

Definition path_join (a b : string) : string :=
  String.append a (String.append "/" b).

Fixpoint read_files (folder_path : string) (es : list (string * option DataFrame))
  : error + list DataFrame :=
  match es with
  | [] => inr []
  | (file_name, content) :: es' =>
      if endswith file_name ".parquet" then
        match content with
        | None => inl (DecodeError (path_join folder_path file_name))
        | Some df =>
            match read_files folder_path es' with
            | inl e => inl e
            | inr dfs => inr (df :: dfs)
            end
        end
      else read_files folder_path es'
  end.

Fixpoint scan_folders (l : list (string * node)) : error + list DataFrame :=
  match l with
  | [] => inr []
  | (folder_name, nd) :: l' =>
      let folder_path := path_join base_path folder_name in
      if startswith folder_name "NF" || startswith folder_name "PF" then
        match nd with
        | Folder es =>
            match read_files folder_path es with
            | inl e => inl e
            | inr dfs =>
                match scan_folders l' with
                | inl e => inl e
                | inr dfs' => inr (dfs ++ dfs')
                end
            end
        | Other => scan_folders l'
        end
      else scan_folders l'
  end.

Definition scan (inp : listing) : error + list DataFrame :=
  match inp with
  | NoSuchPath => inl FileNotFoundError
  | NotADirectory => inl NotADirectoryError
  | Listed l => scan_folders l
  end.

(** ** [pd.concat(dfs, ignore_index=True)] (line 23) *)

(** Labels in order of first appearance. *)
Fixpoint unique (l : list string) : list string :=
  match l with
  | [] => []
  | x :: l' => x :: List.filter (fun y => negb (String.eqb x y)) (unique l')
  end.

Definition union_columns (dfs : list DataFrame) : list string :=
  unique (concat (map columns dfs)).

(** The part of column [c] that frame [df] contributes: its own column, or
    missing values for each of its rows when it has no such column. *)
Definition piece (c : string) (df : DataFrame) : list cell :=
  match get_col df c with
  | Some col => col
  | None => replicate (nrows df) NaN
  end.

Definition total_rows (dfs : list DataFrame) : nat :=
  list_sum (map nrows dfs).

Definition pd_concat (dfs : list DataFrame) : error + DataFrame :=
  match dfs with
  | [] => inl NoObjectsToConcatenate
  | _ =>
      inr (mkDF (RangeIndex (total_rows dfs))
                (map (fun c => (c, concat (map (piece c) dfs))) (union_columns dfs)))
  end.

(** ** [df[keys]] with a list of labels (lines 27, 38, 43) *)

Definition getitem (df : DataFrame) (keys : list string) : error + DataFrame :=
  match List.filter (fun k => negb (has_col df k)) keys with
  | [] => inr (mkDF (index df) (map (fun k => (k, default [] (get_col df k))) keys))
  | missing => inl (KeyError missing)
  end.

(** ** [SimpleImputer(strategy='median').fit_transform(X)] (lines 39-40) *)

(** A two-dimensional float array, stored column by column. *)
Record ndarray : Type := mkArr {
  shape0 : nat;
  cols : list (list cell)
}.

#[global] Instance Qle_dec : RelDecision Qle.
Proof.
  intros x y. unfold Qle. apply Z_le_dec.
Defined.

(** Conversion of one entry to float64, as [np.asarray(X, dtype=float64)]
    does it; [None] when the conversion raises. *)
Definition asfloat (c : cell) : option cell :=
  match c with
  | NaN => Some NaN
  | Num f => Some (Num f)
  | Int z => Some (Num (float_of_int z))
  | NumStr _ (Some f) => Some (Num f)
  | NumStr _ None => Some NaN
  | Obj _ => None
  end.

Definition convertible (c : cell) : bool :=
  match asfloat c with Some _ => true | None => false end.

Definition to_float (c : cell) : cell := default NaN (asfloat c).

Definition is_inf (c : cell) : bool :=
  match c with Num PInf | Num NInf => true | _ => false end.

(** The observed values of a column: its entries that convert to a
    finite number. *)
Fixpoint observed (col : list cell) : list Q :=
  match col with
  | [] => []
  | c :: col' =>
      match to_float c with
      | Num (Fin q) => q :: observed col'
      | _ => observed col'
      end
  end.

Definition Qnth (l : list Q) (i : nat) : Q := nth i l 0%Q.

(** [np.ma.median] along a column: sort the unmasked values, take the
    entries at [l] and [h = count // 2], where [l = h] for an odd count
    and [h - 1] for an even one, add them and divide the sum by two, both
    in float64.  The result is masked when nothing is unmasked. *)
Definition ma_median (vs : list Q) : option float64 :=
  let asorted := merge_sort Qle vs in
  let counts := length asorted in
  let h := (counts / 2)%nat in
  let l := if Nat.odd counts then h else (h - 1)%nat in
  if (counts =? 0)%nat then None
  else Some (fhalf (fadd (Qnth asorted l) (Qnth asorted h))).

(** [imputer.statistics_]: one median per column, [None] standing for the
    [nan] that marks a column without observed values. *)
Definition statistics (X : DataFrame) : list (option float64) :=
  map (fun kv => ma_median (observed (snd kv))) (data X).

Definition fill (m : float64) (c : cell) : cell :=
  match c with NaN => Num m | _ => c end.

(** [transform] on the float array: columns whose statistic is [nan] are
    dropped, the missing entries of the others are set to the statistic. *)
Fixpoint transform_cols (l : list (string * list cell)) : list (list cell) :=
  match l with
  | [] => []
  | (_, col) :: l' =>
      match ma_median (observed col) with
      | Some m => map (fill m) col :: transform_cols l'
      | None => transform_cols l'
      end
  end.

(** The float array of a frame, once every entry is known to convert. *)
Definition float_array (X : DataFrame) : list (string * list cell) :=
  map (fun kv => (fst kv, map to_float (snd kv))) (data X).

(** Input validation comes first: the conversion to a float array rejects
    what is no number, then infinities are refused, and at least one sample
    is required. *)
Definition fit_transform (X : DataFrame) : error + ndarray :=
  if existsb (fun kv => existsb (fun c => negb (convertible c)) (snd kv)) (data X)
  then inl NonNumericData
  else if existsb (fun kv => existsb is_inf (snd kv)) (float_array X)
  then inl InfiniteInput
  else if (nrows X =? 0)%nat then inl NoSamples
  else inr (mkArr (nrows X) (transform_cols (float_array X))).

(** ** [pd.DataFrame(X_imputed, columns=features)] (line 42) *)

Definition DataFrame_of_array (a : ndarray) (names : list string) : error + DataFrame :=
  if (length (cols a) =? length names)%nat then
    inr (mkDF (RangeIndex (shape0 a)) (zip names (cols a)))
  else inl (ShapeMismatch (length (cols a)) (length names)).

(** ** [final_df[features] = X_imputed_df[features]] (line 43) *)

Fixpoint index_of (x : nat) (l : list nat) : option nat :=
  match l with
  | [] => None
  | y :: l' => if (x =? y)%nat then Some 0%nat else S <$> index_of x l'
  end.

(** Assigning a column aligns it on the row labels of the target: the
    target row labelled [x] receives the source value labelled [x], or a
    missing value when the source has no such label. *)
Definition reindex (src_index : list nat) (src : list cell) (dst_index : list nat)
  : list cell :=
  map (fun x => match index_of x src_index with
                | Some i => default NaN (src !! i)
                | None => NaN
                end) dst_index.

Fixpoint replace_col (k : string) (v : list cell) (l : list (string * list cell))
  : list (string * list cell) :=
  match l with
  | [] => [(k, v)]
  | (k', v') :: l' =>
      if String.eqb k k' then (k', v) :: l' else (k', v') :: replace_col k v l'
  end.

(** [df[k] = series]: an existing column is overwritten where it stands, a
    new one is appended. *)
Definition set_column (df : DataFrame) (k : string) (src_index : list nat)
  (src : list cell) : DataFrame :=
  mkDF (index df) (replace_col k (reindex src_index src (index df)) (data df)).

(** With a list of keys and a frame on the right, the columns are assigned
    pairwise, [self[k1] = value[k2]], after a check of the lengths. *)
Definition setitem (df : DataFrame) (keys : list string) (value : DataFrame)
  : error + DataFrame :=
  if (length (columns value) =? length keys)%nat then
    inr (fold_left (fun acc kc => set_column acc (fst kc) (index value) (snd (snd kc)))
                   (zip keys (data value)) df)
  else inl KeyLengthMismatch.

(** ** The script *)

Abbreviation store := (gmap string DataFrame).

(** Computations that may raise and that write files. *)
Definition M (A : Type) : Type := store -> store * (error + A).

Definition ret {A} (a : A) : M A := fun s => (s, inr a).

Definition bind {A B} (m : M A) (k : A -> M B) : M B :=
  fun s => match m s with
           | (s', inl e) => (s', inl e)
           | (s', inr a) => k a s'
           end.

Definition lift {A} (r : error + A) : M A := fun s => (s, r).

(** A column that holds both strings and numbers cannot be converted to
    an Arrow array. *)
Definition mixed (col : list cell) : bool :=
  existsb is_str col && existsb is_number col.

Definition writable (df : DataFrame) : bool :=
  forallb (fun kv => negb (mixed (snd kv))) (data df).

(** [df.to_parquet(path)] converts the table, which may raise, and then
    overwrites the file at [path]. *)
Definition to_parquet (df : DataFrame) (path : string) : M unit :=
  fun s => if writable df then (<[path := df]> s, inr tt) else (s, inl ArrowError).

Notation "'let*' x ':=' m 'in' k" := (bind m (fun x => k))
  (at level 10, x name, m at level 100, k at level 200).

(** Lines 23-45, on the list of decoded files. *)
Definition pipeline (dfs : list DataFrame) : M unit :=
  let* final_df := lift (pd_concat dfs) in
  let* final_df := lift (getitem final_df columns_to_keep) in
  let* _ := to_parquet final_df all_data_path in
  let* X := lift (getitem final_df features) in
  let* X_imputed := lift (fit_transform X) in
  let* X_imputed_df := lift (DataFrame_of_array X_imputed features) in
  let* value := lift (getitem X_imputed_df features) in
  let* final_df := lift (setitem final_df features value) in
  to_parquet final_df all_data_imputed_path.

Definition script (inp : listing) : M unit :=
  let* dfs := lift (scan inp) in
  pipeline dfs.

(** Lines 38-43 as a pure computation on the projected table. *)
Definition impute (final_df : DataFrame) : error + DataFrame :=
  match getitem final_df features with
  | inl e => inl e
  | inr X =>
      match fit_transform X with
      | inl e => inl e
      | inr X_imputed =>
          match DataFrame_of_array X_imputed features with
          | inl e => inl e
          | inr X_imputed_df =>
              match getitem X_imputed_df features with
              | inl e => inl e
              | inr value => setitem final_df features value
              end
          end
      end
  end.

(** ** Predicates used in the statements *)

Definition has_all (df : DataFrame) (keys : list string) : bool :=
  forallb (has_col df) keys.

(** [isna().sum()] of a column. *)
Definition count_na (col : list cell) : nat := length (List.filter isna col).


(** Every entry of the columns [keys] converts to float64. *)
Definition numeric_on (df : DataFrame) (keys : list string) : bool :=
  forallb (fun c => forallb convertible (default [] (get_col df c))) keys.

Definition numeric_features (df : DataFrame) : bool := numeric_on df features.

(** No entry of a feature column converts to an infinity. *)
Definition finite_features (df : DataFrame) : bool :=
  forallb (fun c => forallb (fun x => negb (is_inf (to_float x)))
                            (default [] (get_col df c))) features.

(** Every feature column has at least one observed value. *)
Definition all_observed (df : DataFrame) : bool :=
  forallb (fun c => negb (Nat.eqb (length (observed (default [] (get_col df c)))) 0))
          features.

(** No column of the projection list holds both strings and numbers. *)
Definition kept_writable (df : DataFrame) : bool :=
  forallb (fun c => negb (mixed (default [] (get_col df c)))) columns_to_keep.

(** A column converted to float64, with its missing entries replaced by
    its median when it has one. *)
Definition imputed_col (col : list cell) : list cell :=
  match ma_median (observed col) with
  | Some m => map (fun c => fill m (to_float c)) col
  | None => col
  end.

(** The table lines 38-43 build when they do not raise: each feature
    column of [raw] receives its imputed column, labelled 0, 1, ... *)
Definition assigned (raw : DataFrame) : DataFrame :=
  fold_left
    (fun acc kc => set_column acc (fst kc) (RangeIndex (nrows raw)) (snd (snd kc)))
    (zip features
         (map (fun k => (k, imputed_col (default [] (get_col raw k)))) features))
    raw.


(** The features frame [X] of line 38, when every feature is present. *)
Definition features_frame (raw : DataFrame) : DataFrame :=
  mkDF (index raw) (map (fun k => (k, default [] (get_col raw k))) features).




Definition count_le (m : Q) (vs : list Q) : nat :=
  length (List.filter (fun v => Qle_bool v m) vs).

Definition count_ge (m : Q) (vs : list Q) : nat :=
  length (List.filter (fun v => Qle_bool m v) vs).

(** ** Sample inputs *)

Module Sample.

Definition zeros (n : nat) : list cell := replicate n (Num (Fin 0)).

(** A recording file with the 21 columns and one more. *)
Definition recording (idx : list nat) (ts cppall zcrall oq voicedRMS : list cell)
  : DataFrame :=
  mkDF idx
    (("ts", ts) :: ("session", zeros (length idx)) ::
     ("cppall", cppall) :: ("zcrall", zcrall) :: ("oq", oq) ::
     ("voicedRMS", voicedRMS) ::
     map (fun c => (c, zeros (length idx)))
       ["subject_id"; "week"; "date"; "normpeakall"; "spectralTiltall";
        "LHratioall"; "H1H2all"; "periodicity"; "level"; "freq"; "dBcms2";
        "cppall_2048"; "acflow"; "mfdr"; "naq"; "h1h2"]).

Definition nf001 : DataFrame :=
  recording [10; 11]%nat [Obj "t0"; Obj "t1"] [Num (Fin 1); Num (Fin 3)] [Num (Fin 2); Num (Fin 4)]
    [Num (Fin 5); NaN] [NaN; Num (Fin 4)].

Definition pf002 : DataFrame :=
  recording [0; 1; 2]%nat [Obj "t2"; NaN; Obj "t4"] [NaN; Num (Fin 7); NaN]
    [NaN; NaN; NaN] [NaN; Num (Fin 6); Num (Fin 7)] [NaN; NaN; Num (Fin 5)].


(** A file written without the [h1h2] column. *)
Definition no_h1h2 : DataFrame :=
  mkDF (index nf001) (List.filter (fun kv => negb (String.eqb (fst kv) "h1h2")) (data nf001)).

Definition tree : listing :=
  Listed [("NF001", Folder [("s1.parquet", Some nf001); ("notes.txt", None)]);
          ("README.md", Other);
          ("XX009", Folder [("s9.parquet", Some no_h1h2)]);
          ("PF002", Folder [("s2.parquet", Some pf002)])].

(** The consolidated table of [nf001] and [pf002]. *)
Definition consolidated : DataFrame :=
  Eval vm_compute in
    match pd_concat [nf001; pf002] with inr t => t | inl _ => mkDF [] [] end.

(** The two files the run on [nf001] and [pf002] writes. *)
Definition raw_table : DataFrame :=
  Eval vm_compute in
    default (mkDF [] []) (fst (pipeline [nf001; pf002] ∅) !! all_data_path).

Definition imputed_table : DataFrame :=
  Eval vm_compute in
    default (mkDF [] []) (fst (pipeline [nf001; pf002] ∅) !! all_data_imputed_path).

(** The consolidated tables of [no_h1h2] alone and of [pf002_no_oq] alone. *)
Definition drifted : DataFrame :=
  Eval vm_compute in
    match pd_concat [no_h1h2] with inr t => t | inl _ => mkDF [] [] end.





(** A session whose [cppall] column is an int64 column. *)
Definition counted : DataFrame :=
  recording [0; 1]%nat [Obj "t9"; Obj "t10"] [Int (2 ^ 53 + 1); Int 3]
    [Num (Fin 1); Num (Fin 2)] [Num (Fin 5); NaN] [NaN; NaN].

Definition counted_raw : DataFrame :=
  Eval vm_compute in
    default (mkDF [] []) (fst (pipeline [counted] ∅) !! all_data_path).

Definition counted_imputed : DataFrame :=
  Eval vm_compute in
    default (mkDF [] []) (fst (pipeline [counted] ∅) !! all_data_imputed_path).


End Sample.

(** * Basic facts *)

Lemma assoc_map_in {f : string -> list cell} (keys : list string) (c : string) :
  c ∈ keys -> assoc c (map (fun k => (k, f k)) keys) = Some (f c).
Proof.
  induction keys as [|k keys IH]; intros Hc.
  - inversion Hc.
  - simpl. destruct (String.eqb_spec c k) as [->|Hne]; [reflexivity|].
    apply IH. apply elem_of_cons in Hc as [Hc|Hc]; [contradiction|exact Hc].
Qed.

Lemma assoc_map_notin {f : string -> list cell} (keys : list string) (c : string) :
  c ∉ keys -> assoc c (map (fun k => (k, f k)) keys) = None.
Proof.
  induction keys as [|k keys IH]; intros Hc; [reflexivity|].
  simpl. destruct (String.eqb_spec c k) as [->|Hne].
  - exfalso. apply Hc. left.
  - apply IH. intros Hin. apply Hc. right. exact Hin.
Qed.

Lemma assoc_Some_in (l : list (string * list cell)) c v :
  assoc c l = Some v -> (c, v) ∈ l.
Proof.
  induction l as [|[k w] l IH]; simpl; [discriminate|].
  destruct (String.eqb_spec c k) as [->|Hne].
  - intros [= ->]. left.
  - intros H. right. auto.
Qed.

Lemma assoc_None_keys (l : list (string * list cell)) c :
  assoc c l = None <-> c ∉ map fst l.
Proof.
  induction l as [|[k w] l IH]; simpl.
  - split; [intros _ H; inversion H|reflexivity].
  - destruct (String.eqb_spec c k) as [->|Hne].
    + split; [discriminate|]. intros H. exfalso. apply H. left.
    + rewrite IH. rewrite not_elem_of_cons. tauto.
Qed.

Lemma has_col_columns df c : has_col df c = true <-> c ∈ columns df.
Proof.
  unfold has_col, get_col, columns.
  destruct (assoc c (data df)) as [v|] eqn:E.
  - split; [intros _|reflexivity].
    apply assoc_Some_in in E. apply (list_elem_of_fmap_2 fst) in E. exact E.
  - split; [discriminate|]. intros H. apply assoc_None_keys in E. contradiction.
Qed.

Lemma has_all_spec df keys :
  has_all df keys = true <-> forall c, c ∈ keys -> has_col df c = true.
Proof.
  unfold has_all. rewrite forallb_forall. split; intros H c Hc; apply H.
  - apply list_elem_of_In. exact Hc.
  - apply list_elem_of_In. exact Hc.
Qed.

Lemma filter_missing_nil df keys :
  List.filter (fun k => negb (has_col df k)) keys = [] <-> has_all df keys = true.
Proof.
  unfold has_all. induction keys as [|k keys IH]; simpl; [tauto|].
  destruct (has_col df k); simpl; [exact IH|]. split; discriminate.
Qed.

Lemma getitem_ok df keys :
  has_all df keys = true ->
  getitem df keys =
  inr (mkDF (index df) (map (fun k => (k, default [] (get_col df k))) keys)).
Proof.
  intros H. unfold getitem. apply filter_missing_nil in H. rewrite H. reflexivity.
Qed.

Lemma getitem_missing df keys c :
  c ∈ keys -> has_col df c = false ->
  exists missing, getitem df keys = inl (KeyError missing) /\ c ∈ missing.
Proof.
  intros Hc Hno. unfold getitem.
  assert (Hin : c ∈ List.filter (fun k => negb (has_col df k)) keys).
  { apply list_elem_of_In, filter_In. split; [apply list_elem_of_In; exact Hc|].
    rewrite Hno. reflexivity. }
  destruct (List.filter (fun k => negb (has_col df k)) keys) as [|m ms] eqn:E.
  - inversion Hin.
  - eexists. split; [reflexivity|exact Hin].
Qed.

Lemma getitem_columns df keys sub :
  getitem df keys = inr sub -> columns sub = keys /\ index sub = index df.
Proof.
  unfold getitem.
  destruct (List.filter (fun k => negb (has_col df k)) keys); [|discriminate].
  intros [= <-]. unfold columns. simpl. split; [|reflexivity].
  rewrite map_map. simpl. apply map_id.
Qed.

Lemma getitem_has_all df keys sub :
  getitem df keys = inr sub -> has_all df keys = true.
Proof.
  unfold getitem. intros H. apply filter_missing_nil.
  destruct (List.filter (fun k => negb (has_col df k)) keys); [reflexivity|discriminate].
Qed.

Lemma getitem_get_col df keys sub c :
  getitem df keys = inr sub ->
  get_col sub c = if decide (c ∈ keys) then get_col df c else None.
Proof.
  intros H. pose proof (getitem_has_all _ _ _ H) as E.
  rewrite (getitem_ok _ _ E) in H. injection H as <-. unfold get_col at 1. simpl.
  destruct (decide (c ∈ keys)) as [Hc|Hc].
  - rewrite (assoc_map_in (f := fun k => default [] (get_col df k))) by exact Hc.
    rewrite has_all_spec in E.
    specialize (E c Hc). unfold has_col in E.
    destruct (get_col df c); [reflexivity|discriminate].
  - apply (assoc_map_notin (f := fun k => default [] (get_col df k))). exact Hc.
Qed.

(** The script, as a case analysis on its fallible stages. *)
Lemma pipeline_unfold dfs s :
  pipeline dfs s =
  match pd_concat dfs with
  | inl e => (s, inl e)
  | inr t =>
      match getitem t columns_to_keep with
      | inl e => (s, inl e)
      | inr raw =>
          if writable raw then
            match impute raw with
            | inl e => (<[all_data_path := raw]> s, inl e)
            | inr final =>
                if writable final then
                  (<[all_data_imputed_path := final]> (<[all_data_path := raw]> s),
                   inr tt)
                else (<[all_data_path := raw]> s, inl ArrowError)
            end
          else (s, inl ArrowError)
      end
  end.
Proof.
  unfold pipeline, bind, lift, to_parquet, impute.
  destruct (pd_concat dfs) as [e|t]; [reflexivity|].
  destruct (getitem t columns_to_keep) as [e|raw]; [reflexivity|].
  destruct (writable raw); [|reflexivity].
  destruct (getitem raw features) as [e|X]; [reflexivity|].
  destruct (fit_transform X) as [e|a]; [reflexivity|].
  destruct (DataFrame_of_array a features) as [e|d]; [reflexivity|].
  destruct (getitem d features) as [e|v]; [reflexivity|].
  destruct (setitem raw features v) as [e|final]; [reflexivity|].
  destruct (writable final); reflexivity.
Qed.

Lemma paths_differ : all_data_path <> all_data_imputed_path.
Proof. discriminate. Qed.


(** * Projection (lines 24-27) *)


(** C6. When a column of the fixed list is absent from the consolidated
    table, the projection raises a [KeyError] that names it, the run stops
    with that error, and nothing is written: neither a partial projection
    nor a default column. *)
Theorem projection_missing_column (dfs : list DataFrame) (t : DataFrame) (s : store)
    (c : string) :
  pd_concat dfs = inr t ->
  c ∈ columns_to_keep ->
  has_col t c = false ->
  exists missing,
    c ∈ missing /\
    getitem t columns_to_keep = inl (KeyError missing) /\
    pipeline dfs s = (s, inl (KeyError missing)).
Proof.
  intros Ht Hc Hno.
  destruct (getitem_missing t columns_to_keep c Hc Hno) as (missing & Hg & Hin).
  exists missing. split; [exact Hin|]. split; [exact Hg|].
  rewrite pipeline_unfold, Ht, Hg. reflexivity.
Qed.

(** * Zero input files *)

(** C7, as stated: with no file discovered the concatenation would give a
    table of zero rows.  It does not: [pd.concat] of an empty list raises. *)
Lemma concat_no_files_not_empty_table :
  scan (Listed [("notes.txt", Other); ("NF001", Folder [("readme.md", None)])]) = inr [] /\
  ~ (exists t, pd_concat [] = inr t /\ nrows t = 0%nat).
Proof.
  split; [reflexivity|]. intros (t & H & _). discriminate H.
Qed.

(** C7, amended. When the scan discovers no file, the concatenation raises
    "no objects to concatenate"; the run stops there and writes nothing. *)
Theorem concat_no_files_raises (inp : listing) (s : store) :
  scan inp = inr [] ->
  pd_concat [] = inl NoObjectsToConcatenate /\
  script inp s = (s, inl NoObjectsToConcatenate).
Proof.
  intros H. split; [reflexivity|].
  unfold script, bind, lift. rewrite H. reflexivity.
Qed.

Lemma concat_no_files_raises_witness :
  pd_concat [] = inl NoObjectsToConcatenate /\
  script (Listed [("notes.txt", Other)]) ∅ = (∅, inl NoObjectsToConcatenate).
Proof.
  apply (concat_no_files_raises (Listed [("notes.txt", Other)]) ∅). reflexivity.
Defined.

(** * Concatenation (line 23) *)

Lemma unique_elem (l : list string) x : x ∈ unique l <-> x ∈ l.
Proof.
  induction l as [|y l IH]; simpl; [reflexivity|].
  rewrite !elem_of_cons, <- IH. split.
  - intros [H|H]; [left; exact H|].
    apply list_elem_of_In, filter_In in H as [H _]. right. apply list_elem_of_In. exact H.
  - intros [H|H]; [left; exact H|].
    destruct (String.eqb_spec y x) as [->|Hne]; [left; reflexivity|].
    right. apply list_elem_of_In, filter_In. split; [apply list_elem_of_In; exact H|].
    apply negb_true_iff, String.eqb_neq. exact Hne.
Qed.

Lemma unique_NoDup (l : list string) : NoDup (unique l).
Proof.
  induction l as [|y l IH]; simpl; [constructor|].
  constructor.
  - intros H. apply list_elem_of_In, filter_In in H as [_ H].
    rewrite String.eqb_refl in H. discriminate.
  - apply NoDup_ListNoDup, List.NoDup_filter, NoDup_ListNoDup. exact IH.
Qed.

Lemma wf_col_length df c col :
  wf df -> get_col df c = Some col -> length col = nrows df.
Proof.
  intros [_ Hlen] Hc. apply assoc_Some_in in Hc.
  rewrite Forall_forall in Hlen. apply (Hlen (c, col)). exact Hc.
Qed.

Lemma piece_length df c : wf df -> length (piece c df) = nrows df.
Proof.
  intros Hwf. unfold piece. destruct (get_col df c) as [col|] eqn:E.
  - eapply wf_col_length; eassumption.
  - apply length_replicate.
Qed.

Lemma concat_pieces_length dfs c :
  Forall wf dfs -> length (concat (map (piece c) dfs)) = total_rows dfs.
Proof.
  induction 1 as [|df dfs Hwf _ IH]; [reflexivity|].
  simpl. rewrite length_app, piece_length, IH by exact Hwf. reflexivity.
Qed.








Lemma elem_of_union_columns dfs c :
  c ∈ union_columns dfs <-> exists df, df ∈ dfs /\ c ∈ columns df.
Proof.
  unfold union_columns. rewrite unique_elem, list_elem_of_In, in_concat. split.
  - intros (l & Hl & Hc). apply in_map_iff in Hl as (df & <- & Hdf).
    exists df. split; apply list_elem_of_In; assumption.
  - intros (df & Hdf & Hc). exists (columns df).
    split; [apply in_map|]; apply list_elem_of_In; assumption.
Qed.

Lemma RangeIndex_length n : length (RangeIndex n) = n.
Proof. apply length_seq. Qed.

Lemma pd_concat_ok d dfs :
  pd_concat (d :: dfs) =
  inr (mkDF (RangeIndex (total_rows (d :: dfs)))
            (map (fun c => (c, concat (map (piece c) (d :: dfs))))
                 (union_columns (d :: dfs)))).
Proof. reflexivity. Qed.

Lemma pd_concat_inv dfs t :
  pd_concat dfs = inr t ->
  dfs <> [] /\
  t = mkDF (RangeIndex (total_rows dfs))
           (map (fun c => (c, concat (map (piece c) dfs))) (union_columns dfs)).
Proof.
  destruct dfs as [|d dfs]; [discriminate|].
  rewrite pd_concat_ok. intros [= <-]. split; [discriminate|reflexivity].
Qed.

Lemma pd_concat_columns dfs t :
  pd_concat dfs = inr t -> columns t = union_columns dfs.
Proof.
  intros H. apply pd_concat_inv in H as [_ ->]. unfold columns. simpl.
  rewrite map_map. simpl. apply map_id.
Qed.

Lemma pd_concat_index dfs t :
  pd_concat dfs = inr t ->
  index t = RangeIndex (total_rows dfs) /\ nrows t = total_rows dfs.
Proof.
  intros H. apply pd_concat_inv in H as [_ ->]. unfold nrows. simpl.
  split; [reflexivity|apply RangeIndex_length].
Qed.

Lemma pd_concat_get_col dfs t c :
  pd_concat dfs = inr t -> c ∈ columns t ->
  get_col t c = Some (concat (map (piece c) dfs)).
Proof.
  intros H Hc. rewrite (pd_concat_columns _ _ H) in Hc.
  apply pd_concat_inv in H as [_ ->]. unfold get_col. simpl.
  apply (assoc_map_in (f := fun c => concat (map (piece c) dfs))). exact Hc.
Qed.

Lemma pd_concat_wf dfs t : Forall wf dfs -> pd_concat dfs = inr t -> wf t.
Proof.
  intros Hwf H. split.
  - rewrite (pd_concat_columns _ _ H). apply unique_NoDup.
  - destruct (pd_concat_index _ _ H) as [_ Hn]. rewrite Hn.
    apply pd_concat_inv in H as [_ ->]. simpl.
    apply Forall_forall. intros [c col] Hin.
    apply list_elem_of_fmap in Hin as (c' & [= -> ->] & _). simpl.
    apply concat_pieces_length. exact Hwf.
Qed.


(** * Imputation (lines 38-43) *)

Lemma ma_median_None vs : ma_median vs = None <-> vs = [].
Proof.
  unfold ma_median.
  pose proof (Permutation_length (merge_sort_Permutation Qle vs)) as Hlen.
  rewrite Hlen. destruct vs as [|v vs]; simpl.
  - tauto.
  - split; discriminate.
Qed.

Lemma to_float_idem c : to_float (to_float c) = to_float c.
Proof. destruct c as [|f|z|s [f|]|s]; reflexivity. Qed.

Lemma to_float_not_str c : is_str (to_float c) = false.
Proof. destruct c as [|f|z|s [f|]|s]; reflexivity. Qed.

Lemma observed_to_float col : observed (map to_float col) = observed col.
Proof.
  induction col as [|c col IH]; [reflexivity|].
  simpl. rewrite to_float_idem, IH. reflexivity.
Qed.



Lemma fill_keeps m x : isna x = false -> fill m x = x.
Proof. destruct x; [discriminate|reflexivity..]. Qed.



Lemma transform_cols_length (l : list (string * list cell)) :
  (length (transform_cols l) <= length l)%nat.
Proof.
  induction l as [|[k col] l IH]; simpl; [lia|].
  destruct (ma_median (observed col)); simpl; lia.
Qed.

Lemma transform_cols_all (g : string -> list cell) (keys : list string) :
  forallb (fun k => negb (Nat.eqb (length (observed (g k))) 0)) keys = true ->
  transform_cols (map (fun k => (k, map to_float (g k))) keys) =
  map (fun k => imputed_col (g k)) keys.
Proof.
  induction keys as [|k keys IH]; simpl; [reflexivity|].
  intros [Hk Hks]%andb_true_iff. rewrite observed_to_float.
  unfold imputed_col at 1.
  destruct (ma_median (observed (g k))) as [m|] eqn:E.
  - rewrite IH by exact Hks. rewrite map_map. reflexivity.
  - apply ma_median_None in E. rewrite E in Hk. discriminate.
Qed.

Lemma transform_cols_short (g : string -> list cell) (keys : list string) :
  forallb (fun k => negb (Nat.eqb (length (observed (g k))) 0)) keys = false ->
  (length (transform_cols (map (fun k => (k, map to_float (g k))) keys)) < length keys)%nat.
Proof.
  induction keys as [|k keys IH]; simpl; [discriminate|].
  intros Hv. rewrite observed_to_float.
  pose proof (transform_cols_length (map (fun k => (k, map to_float (g k))) keys)) as Hle.
  rewrite length_map in Hle.
  destruct (ma_median (observed (g k))) as [m|] eqn:E; simpl; [|lia].
  destruct (length (observed (g k)) =? 0)%nat eqn:Ev; simpl in Hv.
  - apply Nat.eqb_eq, length_zero_iff_nil, ma_median_None in Ev. congruence.
  - specialize (IH Hv). lia.
Qed.

Lemma index_of_seq a n x :
  (a <= x < a + n)%nat -> index_of x (seq a n) = Some (x - a)%nat.
Proof.
  revert a. induction n as [|n IH]; intros a Hx; [lia|].
  simpl. destruct (Nat.eqb_spec x a) as [->|Hne].
  - f_equal. lia.
  - rewrite IH by lia. simpl. f_equal. lia.
Qed.

(** Aligning on identical range indexes changes nothing. *)
Lemma reindex_RangeIndex n (src : list cell) :
  length src = n -> reindex (RangeIndex n) src (RangeIndex n) = src.
Proof.
  intros Hlen. unfold reindex, RangeIndex. apply list_eq. intros i.
  change (map ?f ?l) with (f <$> l). rewrite list_lookup_fmap.
  destruct (decide (i < n)%nat) as [Hi|Hi].
  - rewrite lookup_seq_lt by exact Hi. simpl.
    rewrite index_of_seq by lia. rewrite Nat.sub_0_r.
    destruct (src !! i) as [x|] eqn:E; [reflexivity|].
    apply lookup_ge_None in E. lia.
  - rewrite lookup_seq_ge by lia. simpl. symmetry. apply lookup_ge_None. lia.
Qed.


Lemma replace_col_assoc k v l c :
  assoc c (replace_col k v l) = if String.eqb c k then Some v else assoc c l.
Proof.
  induction l as [|[k' v'] l IH]; simpl.
  - destruct (String.eqb c k); reflexivity.
  - destruct (String.eqb_spec k k') as [->|Hne]; simpl.
    + destruct (String.eqb c k'); reflexivity.
    + rewrite IH. destruct (String.eqb_spec c k') as [->|Hne'].
      * destruct (String.eqb_spec k' k) as [->|_]; [contradiction|reflexivity].
      * reflexivity.
Qed.

Lemma replace_col_keys k v l :
  k ∈ map fst l -> map fst (replace_col k v l) = map fst l.
Proof.
  induction l as [|[k' v'] l IH]; simpl; intros Hk.
  - inversion Hk.
  - destruct (String.eqb_spec k k') as [->|Hne]; simpl; [reflexivity|].
    f_equal. apply IH. apply elem_of_cons in Hk as [Hk|Hk]; [contradiction|exact Hk].
Qed.


(** Result of the pairwise column assignment of line 43. *)
Lemma fold_set_column_spec (g : string -> list cell) (idx : list nat) keys df :
  let r := fold_left (fun acc kc => set_column acc (fst kc) idx (snd (snd kc)))
                     (zip keys (map (fun k => (k, g k)) keys)) df in
  index r = index df /\
  (forall c, get_col r c =
             if decide (c ∈ keys) then Some (reindex idx (g c) (index df))
             else get_col df c) /\
  ((forall k, k ∈ keys -> k ∈ columns df) -> columns r = columns df).
Proof.
  revert df. induction keys as [|k keys IH]; intros df r; subst r.
  - simpl. split; [reflexivity|]. split; reflexivity.
  - cbn [map zip_with fold_left fst snd].
    set (df1 := set_column df k idx (g k)).
    destruct (IH df1) as (Hi & Hg & Hc). simpl in Hi, Hg, Hc.
    split; [rewrite Hi; reflexivity|]. split.
    + intros c. rewrite Hg. change (index df1) with (index df).
      destruct (decide (c ∈ keys)) as [Hin|Hnin].
      * rewrite decide_True by (right; exact Hin). reflexivity.
      * unfold get_col, df1. simpl. rewrite replace_col_assoc.
        destruct (String.eqb_spec c k) as [->|Hne].
        -- rewrite decide_True by left. reflexivity.
        -- rewrite decide_False; [reflexivity|].
           intros [?|?]%elem_of_cons; contradiction.
    + intros Hsub.
      assert (Hc1 : columns df1 = columns df).
      { unfold columns, df1. simpl. apply replace_col_keys. apply Hsub. left. }
      rewrite Hc; [exact Hc1|]. intros k' Hk'. rewrite Hc1. apply Hsub. right. exact Hk'.
Qed.


Lemma forallb_keys (p : list cell -> bool) (g : string -> list cell)
    (keys : list string) :
  forallb (fun kv => p (snd kv)) (map (fun k => (k, g k)) keys) =
  forallb (fun k => p (g k)) keys.
Proof.
  induction keys as [|k keys IH]; [reflexivity|]. simpl. rewrite IH. reflexivity.
Qed.

Lemma existsb_keys (p : list cell -> bool) (g : string -> list cell)
    (keys : list string) :
  existsb (fun kv => p (snd kv)) (map (fun k => (k, g k)) keys) =
  negb (forallb (fun k => negb (p (g k))) keys).
Proof.
  induction keys as [|k keys IH]; [reflexivity|].
  simpl. rewrite IH, negb_andb, negb_involutive. reflexivity.
Qed.

Lemma existsb_negb {A} (p : A -> bool) (l : list A) :
  existsb (fun x => negb (p x)) l = negb (forallb p l).
Proof.
  induction l as [|x l IH]; [reflexivity|].
  simpl. rewrite IH, negb_andb. reflexivity.
Qed.

Lemma existsb_as_forallb {A} (p : A -> bool) (l : list A) :
  existsb p l = negb (forallb (fun x => negb (p x)) l).
Proof.
  induction l as [|x l IH]; [reflexivity|].
  simpl. rewrite IH, negb_andb, negb_involutive. reflexivity.
Qed.

Lemma forallb_map_comp {A B} (p : B -> bool) (f : A -> B) (l : list A) :
  forallb p (map f l) = forallb (fun x => p (f x)) l.
Proof.
  induction l as [|x l IH]; [reflexivity|]. simpl. rewrite IH. reflexivity.
Qed.

Lemma forallb_pointwise {A} (p q : A -> bool) (l : list A) :
  (forall x, p x = q x) -> forallb p l = forallb q l.
Proof.
  intros H. induction l as [|x l IH]; [reflexivity|]. simpl. rewrite H, IH. reflexivity.
Qed.

Lemma zip_map_self {B} (h : string -> B) (keys : list string) :
  zip keys (map h keys) = map (fun k => (k, h k)) keys.
Proof.
  induction keys as [|k keys IH]; [reflexivity|]. simpl. rewrite IH. reflexivity.
Qed.

Lemma features_NoDup : NoDup features.
Proof. apply (bool_decide_unpack _). vm_compute. exact I. Qed.

Lemma features_kept c : c ∈ features -> c ∈ columns_to_keep.
Proof.
  intros H. unfold features in H. unfold columns_to_keep.
  repeat (apply elem_of_cons in H as [->|H];
          [apply (bool_decide_unpack _); vm_compute; exact I|]).
  inversion H.
Qed.

Lemma float_array_features raw :
  float_array (features_frame raw) =
  map (fun k => (k, map to_float (default [] (get_col raw k)))) features.
Proof. unfold float_array, features_frame. cbn [data]. rewrite map_map. reflexivity. Qed.

Lemma fit_transform_features raw :
  fit_transform (features_frame raw) =
  if negb (numeric_features raw) then inl NonNumericData
  else if negb (finite_features raw) then inl InfiniteInput
  else if (nrows raw =? 0)%nat then inl NoSamples
  else inr (mkArr (nrows raw) (transform_cols (float_array (features_frame raw)))).
Proof.
  unfold fit_transform. rewrite float_array_features.
  unfold features_frame at 1. cbn [data].
  rewrite (existsb_keys (existsb (fun c => negb (convertible c)))
             (fun k => default [] (get_col raw k))).
  rewrite (existsb_keys (existsb is_inf)
             (fun k => map to_float (default [] (get_col raw k)))).
  assert (Hn : forallb (fun k => negb (existsb (fun c => negb (convertible c))
                                        (default [] (get_col raw k)))) features =
               numeric_features raw).
  { apply forallb_pointwise. intros k. rewrite existsb_negb, negb_involutive. reflexivity. }
  assert (Hf : forallb (fun k => negb (existsb is_inf
                                        (map to_float (default [] (get_col raw k))))) features =
               finite_features raw).
  { apply forallb_pointwise. intros k.
    rewrite existsb_as_forallb, negb_involutive, forallb_map_comp. reflexivity. }
  rewrite Hn, Hf. reflexivity.
Qed.

Lemma imputed_col_length col : length (imputed_col col) = length col.
Proof.
  unfold imputed_col. destruct (ma_median (observed col)); [apply length_map|reflexivity].
Qed.


Lemma all_observed_spec df :
  all_observed df = true <->
  forall c, c ∈ features -> observed (default [] (get_col df c)) <> [].
Proof.
  unfold all_observed. rewrite forallb_forall. split.
  - intros H c Hc Hnil. apply list_elem_of_In in Hc. specialize (H c Hc).
    rewrite Hnil in H. discriminate.
  - intros H c Hc. apply list_elem_of_In in Hc. specialize (H c Hc).
    destruct (observed (default [] (get_col df c))); [contradiction|reflexivity].
Qed.

Lemma transform_features_bound raw :
  all_observed raw = false ->
  (length (transform_cols (float_array (features_frame raw))) < 16)%nat.
Proof.
  intros Hv. rewrite float_array_features.
  apply (transform_cols_short (fun k => default [] (get_col raw k)) features Hv).
Qed.

(** Lines 38-43 on a table that has the feature columns: the four ways
    they raise, and the table they build otherwise. *)
Lemma impute_eq (raw : DataFrame) :
  has_all raw features = true ->
  impute raw =
  if negb (numeric_features raw) then inl NonNumericData
  else if negb (finite_features raw) then inl InfiniteInput
  else if (nrows raw =? 0)%nat then inl NoSamples
  else if all_observed raw then inr (assigned raw)
  else inl (ShapeMismatch
              (length (transform_cols (float_array (features_frame raw)))) 16).
Proof.
  intros Hall. unfold impute.
  rewrite (getitem_ok _ _ Hall). fold (features_frame raw).
  rewrite fit_transform_features.
  destruct (numeric_features raw); cbn [negb]; [|reflexivity].
  destruct (finite_features raw); cbn [negb]; [|reflexivity].
  destruct (nrows raw =? 0)%nat; [reflexivity|].
  unfold DataFrame_of_array. cbn [cols shape0].
  destruct (all_observed raw) eqn:Hv.
  - rewrite float_array_features.
    rewrite (transform_cols_all (fun k => default [] (get_col raw k)) features Hv).
    set (h := fun k => imputed_col (default [] (get_col raw k))).
    rewrite length_map, Nat.eqb_refl, zip_map_self.
    set (Xdf := mkDF (RangeIndex (nrows raw)) (map (fun k => (k, h k)) features)).
    assert (HXcols : columns Xdf = features).
    { unfold columns, Xdf. cbn [data]. rewrite map_map. apply map_id. }
    assert (HXall : has_all Xdf features = true).
    { apply has_all_spec. intros c Hc. apply has_col_columns. rewrite HXcols. exact Hc. }
    rewrite (getitem_ok _ _ HXall).
    assert (Hdata : map (fun k => (k, default [] (get_col Xdf k))) features =
                    map (fun k => (k, h k)) features).
    { apply map_ext_in. intros k Hk. apply list_elem_of_In in Hk.
      unfold get_col, Xdf. cbn [data]. rewrite (assoc_map_in (f := h)) by exact Hk.
      reflexivity. }
    rewrite Hdata. unfold setitem, columns. cbn [data index].
    rewrite !length_map, Nat.eqb_refl. reflexivity.
  - pose proof (transform_features_bound raw Hv) as Hshort.
    change (length features) with 16%nat.
    destruct (Nat.eqb_spec (length (transform_cols (float_array (features_frame raw))))
                           16) as [Heq|Hneq]; [lia|].
    reflexivity.
Qed.

(** The table built by line 43. *)
Lemma assigned_spec (raw : DataFrame) :
  has_all raw features = true ->
  index (assigned raw) = index raw /\
  columns (assigned raw) = columns raw /\
  (forall c, c ∉ features -> get_col (assigned raw) c = get_col raw c) /\
  (wf raw -> index raw = RangeIndex (nrows raw) ->
   forall c, c ∈ features ->
     get_col (assigned raw) c = imputed_col <$> get_col raw c).
Proof.
  intros Hall. unfold assigned.
  destruct (fold_set_column_spec
              (fun k => imputed_col (default [] (get_col raw k)))
              (RangeIndex (nrows raw)) features raw) as (Hi & Hg & Hc).
  split; [exact Hi|]. split.
  { apply Hc. intros k Hk. apply has_col_columns.
    rewrite has_all_spec in Hall. apply Hall. exact Hk. }
  split.
  - intros c Hcf. rewrite Hg, decide_False by exact Hcf. reflexivity.
  - intros Hwf Hidx c Hcf. rewrite Hg, decide_True by exact Hcf.
    rewrite has_all_spec in Hall. specialize (Hall c Hcf). unfold has_col in Hall.
    destruct (get_col raw c) as [col|] eqn:Ecol; [|discriminate].
    rewrite Hidx. rewrite reindex_RangeIndex; [reflexivity|].
    simpl. rewrite imputed_col_length. eapply wf_col_length; eassumption.
Qed.


(** What lines 38-43 do to a projected table whose rows are labelled by a
    range index: the ways they fail, and the table they build. *)
Lemma impute_spec (raw : DataFrame) :
  wf raw -> index raw = RangeIndex (nrows raw) -> has_all raw features = true ->
  match impute raw with
  | inr final =>
      numeric_features raw = true /\ finite_features raw = true /\
      (0 < nrows raw)%nat /\ all_observed raw = true /\
      index final = index raw /\ columns final = columns raw /\
      (forall c, get_col final c =
                 if decide (c ∈ features) then imputed_col <$> get_col raw c
                 else get_col raw c)
  | inl e =>
      (numeric_features raw = false /\ e = NonNumericData) \/
      (numeric_features raw = true /\ finite_features raw = false /\
       e = InfiniteInput) \/
      (numeric_features raw = true /\ finite_features raw = true /\
       nrows raw = 0%nat /\ e = NoSamples) \/
      (numeric_features raw = true /\ finite_features raw = true /\
       (0 < nrows raw)%nat /\ all_observed raw = false /\
       exists m, (m < 16)%nat /\ e = ShapeMismatch m 16)
  end.
Proof.
  intros Hwf Hidx Hall. rewrite (impute_eq raw Hall).
  destruct (numeric_features raw); cbn [negb]; [|left; auto].
  destruct (finite_features raw); cbn [negb]; [|right; left; auto].
  destruct (Nat.eqb_spec (nrows raw) 0) as [Hz|Hnz]; [right; right; left; auto|].
  assert (Hpos : (0 < nrows raw)%nat) by lia.
  destruct (all_observed raw) eqn:Hv.
  - destruct (assigned_spec raw Hall) as (Hi & Hc & Hother & Hfeat).
    repeat split; try assumption; try reflexivity.
    intros c. destruct (decide (c ∈ features)) as [Hcf|Hcf].
    + apply Hfeat; assumption.
    + apply Hother. exact Hcf.
  - right. right. right. repeat split; try assumption; try reflexivity.
    eexists. split; [|reflexivity]. apply transform_features_bound. exact Hv.
Qed.

Lemma getitem_wf df keys sub :
  wf df -> NoDup keys -> getitem df keys = inr sub -> wf sub.
Proof.
  intros Hwf Hnd Hsub.
  destruct (getitem_columns _ _ _ Hsub) as [Hc Hi].
  pose proof (getitem_has_all _ _ _ Hsub) as Hall.
  split; [rewrite Hc; exact Hnd|].
  unfold nrows. rewrite Hi. fold (nrows df).
  rewrite (getitem_ok _ _ Hall) in Hsub. injection Hsub as <-. cbn [data].
  apply Forall_forall. intros [c col] Hin.
  apply list_elem_of_fmap in Hin as (k & [= -> ->] & Hk). simpl.
  rewrite has_all_spec in Hall. specialize (Hall k Hk). unfold has_col in Hall.
  destruct (get_col df k) as [col|] eqn:E; [|discriminate]. simpl.
  eapply wf_col_length; eassumption.
Qed.

Lemma columns_to_keep_NoDup : NoDup columns_to_keep.
Proof. apply (bool_decide_unpack _). vm_compute. exact I. Qed.

(** The projected table of a run inherits the shape of the consolidated
    one, and its rows are labelled by a range index. *)
Lemma projected_shape dfs t raw :
  Forall wf dfs -> pd_concat dfs = inr t -> getitem t columns_to_keep = inr raw ->
  wf raw /\ index raw = RangeIndex (nrows raw) /\ nrows raw = total_rows dfs /\
  has_all raw features = true /\
  (forall c, c ∈ columns_to_keep -> get_col raw c = get_col t c).
Proof.
  intros Hwf Ht Hraw.
  pose proof (pd_concat_wf _ _ Hwf Ht) as Hwt.
  destruct (pd_concat_index _ _ Ht) as [Hidx Hn].
  destruct (getitem_columns _ _ _ Hraw) as [Hc Hi].
  assert (Hnr : nrows raw = nrows t) by (unfold nrows; rewrite Hi; reflexivity).
  split; [|split; [|split; [|split]]].
  - eapply getitem_wf; [exact Hwt|apply columns_to_keep_NoDup|exact Hraw].
  - rewrite Hi, Hnr, Hn. exact Hidx.
  - rewrite Hnr. exact Hn.
  - apply has_all_spec. intros c Hcf. apply has_col_columns. rewrite Hc.
    apply features_kept. exact Hcf.
  - intros c Hin. rewrite (getitem_get_col _ _ _ c Hraw).
    rewrite decide_True by exact Hin. reflexivity.
Qed.

Lemma projected_has_features t raw :
  getitem t columns_to_keep = inr raw -> has_all raw features = true.
Proof.
  intros Hraw. destruct (getitem_columns _ _ _ Hraw) as [Hc _].
  apply has_all_spec. intros c Hcf. apply has_col_columns. rewrite Hc.
  apply features_kept. exact Hcf.
Qed.

(** Line 33 can convert the projected table exactly when no kept column
    of the consolidated table mixes strings and numbers. *)
Lemma writable_projection t raw :
  getitem t columns_to_keep = inr raw -> writable raw = kept_writable t.
Proof.
  intros Hraw. pose proof (getitem_has_all _ _ _ Hraw) as Hall.
  rewrite (getitem_ok _ _ Hall) in Hraw. apply (inj inr) in Hraw. subst raw.
  unfold writable, kept_writable. cbn [data].
  apply (forallb_keys (fun col => negb (mixed col))
           (fun k => default [] (get_col t k))).
Qed.





Lemma assoc_of_in (l : list (string * list cell)) k v :
  NoDup (map fst l) -> (k, v) ∈ l -> assoc k l = Some v.
Proof.
  induction l as [|[k' v'] l IH]; simpl; intros Hnd Hin; [inversion Hin|].
  apply NoDup_cons in Hnd as [Hk' Hnd].
  apply elem_of_cons in Hin as [[= -> ->]|Hin].
  - rewrite String.eqb_refl. reflexivity.
  - destruct (String.eqb_spec k k') as [->|_]; [|apply IH; assumption].
    exfalso. apply Hk'. apply (list_elem_of_fmap_2 fst) in Hin. exact Hin.
Qed.

Lemma get_col_of_in df k v :
  NoDup (columns df) -> (k, v) ∈ data df -> get_col df k = Some v.
Proof. intros Hnd Hin. apply assoc_of_in; assumption. Qed.

(** The table built by lines 38-43 has the shape of the table they start
    from. *)
Lemma impute_wf raw final :
  wf raw -> index raw = RangeIndex (nrows raw) -> has_all raw features = true ->
  impute raw = inr final ->
  wf final /\ index final = RangeIndex (nrows final) /\
  has_all final features = true /\ nrows final = nrows raw.
Proof.
  intros Hwf Hidx Hall Himp.
  pose proof (impute_spec raw Hwf Hidx Hall) as Hspec. rewrite Himp in Hspec.
  destruct Hspec as (_ & _ & _ & _ & Hi & Hc & Hget).
  assert (Hn : nrows final = nrows raw) by (unfold nrows; rewrite Hi; reflexivity).
  assert (Hnd : NoDup (columns final)) by (rewrite Hc; apply Hwf).
  split; [|split; [|split]].
  - split; [exact Hnd|]. apply Forall_forall. intros [k v] Hin. simpl.
    pose proof (get_col_of_in final k v Hnd Hin) as Hk. rewrite Hget in Hk.
    rewrite Hn. destruct (decide (k ∈ features)).
    + destruct (get_col raw k) as [col|] eqn:E; [|discriminate].
      simpl in Hk. injection Hk as <-. rewrite imputed_col_length.
      eapply wf_col_length; eassumption.
    + eapply wf_col_length; eassumption.
  - rewrite Hn, Hi. exact Hidx.
  - apply has_all_spec. intros c Hcf. apply has_col_columns. rewrite Hc.
    apply has_col_columns. rewrite has_all_spec in Hall. apply Hall. exact Hcf.
  - exact Hn.
Qed.


(** A run that ends well went through all its stages. *)
Lemma run_ok_inv dfs s :
  snd (pipeline dfs s) = inr tt ->
  exists t raw final,
    pd_concat dfs = inr t /\ getitem t columns_to_keep = inr raw /\
    impute raw = inr final /\ has_all t columns_to_keep = true /\
    kept_writable t = true /\
    fst (pipeline dfs s) !! all_data_path = Some raw /\
    fst (pipeline dfs s) !! all_data_imputed_path = Some final.
Proof.
  rewrite pipeline_unfold.
  destruct (pd_concat dfs) as [e|t] eqn:Ht; [discriminate|].
  destruct (getitem t columns_to_keep) as [e|raw] eqn:Hraw; [discriminate|].
  destruct (writable raw) eqn:Hw; [|discriminate].
  destruct (impute raw) as [e|final] eqn:Himp; [discriminate|].
  destruct (writable final); [|discriminate].
  intros _. exists t, raw, final. cbn [fst snd].
  split; [reflexivity|]. split; [exact Hraw|]. split; [exact Himp|].
  split; [|split; [|split]].
  - eapply getitem_has_all. exact Hraw.
  - rewrite <- (writable_projection _ _ Hraw). exact Hw.
  - rewrite lookup_insert_ne by (apply not_eq_sym, paths_differ). apply lookup_insert_eq.
  - apply lookup_insert_eq.
Qed.

(** What is known of the two files of a run that ends well. *)
Lemma run_ok_spec dfs s raw final :
  Forall wf dfs ->
  snd (pipeline dfs s) = inr tt ->
  fst (pipeline dfs s) !! all_data_path = Some raw ->
  fst (pipeline dfs s) !! all_data_imputed_path = Some final ->
  exists t,
    pd_concat dfs = inr t /\ getitem t columns_to_keep = inr raw /\
    impute raw = inr final /\
    wf raw /\ index raw = RangeIndex (nrows raw) /\ nrows raw = total_rows dfs /\
    has_all raw features = true /\ columns raw = columns_to_keep /\
    (forall c, c ∈ columns_to_keep -> get_col raw c = get_col t c) /\
    all_observed raw = true /\
    index final = index raw /\ columns final = columns raw /\
    (forall c, get_col final c =
               if decide (c ∈ features) then imputed_col <$> get_col raw c
               else get_col raw c).
Proof.
  intros Hwf Hok Hr Hf.
  destruct (run_ok_inv dfs s Hok)
    as (t & raw' & final' & Ht & Hraw & Himp & Hall & Hkw & Hr' & Hf').
  rewrite Hr in Hr'. injection Hr' as <-. rewrite Hf in Hf'. injection Hf' as <-.
  destruct (projected_shape _ _ _ Hwf Ht Hraw) as (Hwr & Hir & Hnr & Hfr & Hget).
  destruct (getitem_columns _ _ _ Hraw) as [Hc _].
  pose proof (impute_spec raw Hwr Hir Hfr) as Hspec. rewrite Himp in Hspec.
  destruct Hspec as (_ & _ & _ & Hobs & Hi & Hcf & Hg).
  exists t. split; [exact Ht|]. split; [exact Hraw|]. split; [exact Himp|].
  split; [exact Hwr|]. repeat split; assumption.
Qed.

Lemma imputed_col_lookup col m i x :
  ma_median (observed col) = Some m -> col !! i = Some x ->
  imputed_col col !! i = Some (fill m (to_float x)).
Proof.
  intros Hm Hi. unfold imputed_col. rewrite Hm.
  change (map ?f col) with (f <$> col). rewrite list_lookup_fmap, Hi. reflexivity.
Qed.


(** C4. In every run that ends well the imputed output has the row
    labels, the row count and the column list of the raw output; every
    column outside the feature list, [ts], [subject_id], [week] and [date]
    among them, is the same in both; and a feature column keeps its length,
    each of its entries that converts to a number standing at the same place
    as that float64. *)
Theorem imputation_touches_features_only (dfs : list DataFrame) (s : store)
    (raw final : DataFrame) :
  Forall wf dfs ->
  snd (pipeline dfs s) = inr tt ->
  fst (pipeline dfs s) !! all_data_path = Some raw ->
  fst (pipeline dfs s) !! all_data_imputed_path = Some final ->
  index final = index raw /\ nrows final = nrows raw /\
  columns final = columns raw /\
  (forall c, c ∉ features -> get_col final c = get_col raw c) /\
  get_col final "ts" = get_col raw "ts" /\
  get_col final "subject_id" = get_col raw "subject_id" /\
  get_col final "week" = get_col raw "week" /\
  get_col final "date" = get_col raw "date" /\
  (forall c col, c ∈ features -> get_col raw c = Some col ->
     exists col', get_col final c = Some col' /\ length col' = length col /\
       forall i x, col !! i = Some x -> isna (to_float x) = false ->
                   col' !! i = Some (to_float x)).
Proof.
  intros Hwf Hok Hr Hf.
  destruct (run_ok_spec dfs s raw final Hwf Hok Hr Hf)
    as (t & _ & _ & _ & _ & _ & _ & _ & _ & _ & Hobs & Hidx & Hcols & Hget).
  assert (Hother : forall c, c ∉ features -> get_col final c = get_col raw c).
  { intros c Hc. rewrite Hget. rewrite decide_False by exact Hc. reflexivity. }
  split; [exact Hidx|]. split; [unfold nrows; rewrite Hidx; reflexivity|].
  split; [exact Hcols|]. split; [exact Hother|].
  repeat (split; [apply Hother; apply (bool_decide_unpack _); vm_compute; exact I|]).
  intros c col Hc Ecol. rewrite Hget, decide_True by exact Hc. rewrite Ecol. simpl.
  exists (imputed_col col). split; [reflexivity|]. split; [apply imputed_col_length|].
  intros i x Hi Hx.
  rewrite all_observed_spec in Hobs. specialize (Hobs c Hc). rewrite Ecol in Hobs.
  simpl in Hobs. destruct (ma_median (observed col)) as [m|] eqn:Em.
  - rewrite (imputed_col_lookup col m i x Em Hi). rewrite fill_keeps by exact Hx.
    reflexivity.
  - apply ma_median_None in Em. contradiction.
Qed.

(** C9. [voicedRMS] is the 21st column of the projection list and is not
    a feature; in every run that ends well its column in the imputed output
    is its column in the raw output, so its missing values are still there,
    in the same number. *)
Theorem voicedRMS_not_imputed (dfs : list DataFrame) (s : store)
    (raw final : DataFrame) :
  Forall wf dfs ->
  snd (pipeline dfs s) = inr tt ->
  fst (pipeline dfs s) !! all_data_path = Some raw ->
  fst (pipeline dfs s) !! all_data_imputed_path = Some final ->
  columns_to_keep !! 20%nat = Some "voicedRMS" /\
  ("voicedRMS" ∉ features) /\
  ("voicedRMS" ∈ columns final) /\
  get_col final "voicedRMS" = get_col raw "voicedRMS" /\
  (forall i, cell_at raw "voicedRMS" i = Some NaN ->
             cell_at final "voicedRMS" i = Some NaN) /\
  count_na (default [] (get_col final "voicedRMS")) =
  count_na (default [] (get_col raw "voicedRMS")).
Proof.
  intros Hwf Hok Hr Hf.
  destruct (run_ok_spec dfs s raw final Hwf Hok Hr Hf)
    as (t & _ & _ & _ & _ & _ & _ & _ & Hrc & _ & _ & _ & Hcols & Hget).
  assert (Hnf : "voicedRMS" ∉ features)
    by (apply (bool_decide_unpack _); vm_compute; exact I).
  assert (Hv : get_col final "voicedRMS" = get_col raw "voicedRMS").
  { rewrite Hget. rewrite decide_False by exact Hnf. reflexivity. }
  split; [reflexivity|]. split; [exact Hnf|]. split; [|split; [exact Hv|split]].
  - rewrite Hcols, Hrc. apply (bool_decide_unpack _). vm_compute. exact I.
  - intros i. unfold cell_at. rewrite Hv. auto.
  - rewrite Hv. reflexivity.
Qed.



(** * The median (line 39) *)

Lemma odd_half n : Nat.odd n = true -> (n = 2 * (n / 2) + 1)%nat /\ ((n - 1) / 2 = n / 2)%nat.
Proof.
  intros H. apply Nat.odd_spec in H as [k ->].
  assert (Hk : ((2 * k + 1) / 2 = k)%nat).
  { replace (2 * k + 1)%nat with (1 + k * 2)%nat by lia.
    rewrite Nat.div_add by lia. reflexivity. }
  rewrite Hk. split; [lia|].
  replace (2 * k + 1 - 1)%nat with (k * 2)%nat by lia. apply Nat.div_mul. lia.
Qed.

Lemma even_half n : Nat.odd n = false -> (n = 2 * (n / 2))%nat.
Proof.
  intros H. rewrite <- Nat.negb_even in H. apply negb_false_iff in H.
  apply Nat.even_spec in H as [k ->].
  replace (2 * k)%nat with (k * 2)%nat at 2 by lia. rewrite Nat.div_mul by lia. lia.
Qed.


(** Rounding looks at the value of a rational, not at its writing. *)
Lemma round64_Qeq (q q' : Q) : (q == q')%Q -> round64 q = round64 q'.
Proof. intros H. unfold round64. rewrite (Qred_complete _ _ H). reflexivity. Qed.

(** ** Rounding to float64 *)

Lemma pow2_pos (e : Z) : (0 < 2 ^ e)%Q.
Proof. apply Qpower_0_lt. reflexivity. Qed.

Lemma pow2_Z (e : Z) : (0 <= e)%Z -> (inject_Z (2 ^ e) == 2 ^ e)%Q.
Proof. intros H. rewrite (Zpower_Qpower 2 e H). reflexivity. Qed.

Lemma pow2_add (a b : Z) : (2 ^ (a + b) == 2 ^ a * 2 ^ b)%Q.
Proof. apply Qpower_plus. discriminate. Qed.

Lemma pow2_cancel (e : Z) : (2 ^ e * 2 ^ (- e) == 1)%Q.
Proof. rewrite <- pow2_add. replace (e + - e)%Z with 0%Z by lia. reflexivity. Qed.

Lemma pow2_succ (e : Z) : (2 ^ (e + 1) == 2 * 2 ^ e)%Q.
Proof. rewrite pow2_add. change (2 ^ 1)%Q with 2%Q. ring. Qed.

(** The comparison of [2 ^ e] with [n / d] that [floor_log2] performs. *)
Lemma pow2_le_test (e n d : Z) :
  (if (0 <=? e)%Z then (d * 2 ^ e <=? n)%Z else (d <=? n * 2 ^ (- e))%Z) = true <->
  (2 ^ e * inject_Z d <= inject_Z n)%Q.
Proof.
  destruct (Z.leb_spec 0 e) as [He|He].
  - rewrite Z.leb_le, Zle_Qle, inject_Z_mult, (pow2_Z e He).
    rewrite (Qmult_comm (inject_Z d)). reflexivity.
  - rewrite Z.leb_le, Zle_Qle, inject_Z_mult, (pow2_Z (- e)) by lia.
    pose proof (pow2_pos e) as Hp. pose proof (pow2_cancel e) as Hc.
    set (P := (2 ^ e)%Q) in *. set (P' := (2 ^ (- e))%Q) in *.
    split; intros H.
    + apply (Qmult_le_l _ _ P) in H; [|exact Hp].
      assert (E : (P * (inject_Z n * P') == inject_Z n)%Q).
      { rewrite (Qmult_comm (inject_Z n)), Qmult_assoc, Hc. ring. }
      rewrite E in H. exact H.
    + apply (Qmult_le_l _ _ P); [exact Hp|].
      assert (E : (P * (inject_Z n * P') == inject_Z n)%Q).
      { rewrite (Qmult_comm (inject_Z n)), Qmult_assoc, Hc. ring. }
      rewrite E. exact H.
Qed.

Lemma floor_log2_eq (n d : Z) :
  floor_log2 n d =
  let e := (Z.log2 n - Z.log2 d)%Z in
  if (if (0 <=? e)%Z then (d * 2 ^ e <=? n)%Z else (d <=? n * 2 ^ (- e))%Z)
  then e else (e - 1)%Z.
Proof. unfold floor_log2. cbv zeta. destruct (0 <=? _)%Z; reflexivity. Qed.

Lemma log2_bounds (n : Z) :
  (0 < n)%Z ->
  (2 ^ Z.log2 n <= inject_Z n)%Q /\ (inject_Z n < 2 * 2 ^ Z.log2 n)%Q.
Proof.
  intros Hn. destruct (Z.log2_spec n Hn) as [Hlo Hhi].
  pose proof (Z.log2_nonneg n) as H0.
  rewrite Zle_Qle, pow2_Z in Hlo by exact H0.
  rewrite Zlt_Qlt, pow2_Z in Hhi by lia.
  unfold Z.succ in Hhi. rewrite pow2_succ in Hhi. split; assumption.
Qed.

(** [floor_log2 n d] is the exponent of the binade of [n / d]. *)
Lemma floor_log2_spec (n d : Z) :
  (0 < n)%Z -> (0 < d)%Z ->
  (2 ^ floor_log2 n d * inject_Z d <= inject_Z n)%Q /\
  (inject_Z n < 2 * 2 ^ floor_log2 n d * inject_Z d)%Q.
Proof.
  intros Hn Hd. rewrite floor_log2_eq. cbv zeta.
  destruct (log2_bounds n Hn) as [Hn1 Hn2]. destruct (log2_bounds d Hd) as [Hd1 Hd2].
  set (e := (Z.log2 n - Z.log2 d)%Z).
  assert (HE : (2 ^ e * 2 ^ Z.log2 d == 2 ^ Z.log2 n)%Q).
  { rewrite <- pow2_add. unfold e. f_equiv. lia. }
  pose proof (pow2_pos e) as HEp. pose proof (pow2_pos (Z.log2 d)) as HBp.
  pose proof (pow2_le_test e n d) as Htest.
  destruct (if (0 <=? e)%Z then (d * 2 ^ e <=? n)%Z else (d <=? n * 2 ^ (- e))%Z).
  - assert (Hle : (2 ^ e * inject_Z d <= inject_Z n)%Q) by (apply Htest; reflexivity).
    split; [exact Hle|].
    set (E := (2 ^ e)%Q) in *. set (A := (2 ^ Z.log2 n)%Q) in *.
    set (B := (2 ^ Z.log2 d)%Q) in *.
    nra.
  - assert (Hlt : (inject_Z n < 2 ^ e * inject_Z d)%Q).
    { apply Qnot_le_lt. intros H. apply Htest in H. discriminate. }
    assert (Hh : (2 * 2 ^ (e - 1) == 2 ^ e)%Q).
    { rewrite <- pow2_succ. f_equiv. lia. }
    pose proof (pow2_pos (e - 1)) as HE1.
    set (E := (2 ^ e)%Q) in *. set (E1 := (2 ^ (e - 1))%Q) in *.
    set (A := (2 ^ Z.log2 n)%Q) in *. set (B := (2 ^ Z.log2 d)%Q) in *.
    split; nra.
Qed.

Lemma round_half_even_exact (k den : Z) :
  (0 < den)%Z -> round_half_even (k * den) den = k.
Proof.
  intros H. unfold round_half_even.
  rewrite Z.div_mul, Z.mod_mul by lia.
  change (2 * 0)%Z with 0%Z.
  destruct (Z.compare_spec 0 den) as [E|_|E]; [lia|reflexivity|lia].
Qed.










Lemma Qred_int (z : Z) : Qred (z # 1) = (z # 1)%Q.
Proof. apply Qcanon.Qred_iff. cbn [Qnum Qden]. apply Z.gcd_1_r. Qed.

Lemma round_half_even_1 (k : Z) : round_half_even k 1 = k.
Proof.
  rewrite <- (Z.mul_1_r k) at 1. apply round_half_even_exact. lia.
Qed.

(** A positive integer of at most 53 bits is a float64. *)
Lemma round_pos_int (n : Z) :
  (0 < n <= 2 ^ 53)%Z -> round_pos n 1 = Fin (n # 1).
Proof.
  intros [Hn Hle].
  destruct (Z.eq_dec n (2 ^ 53)%Z) as [->|Hne]; [vm_compute; reflexivity|].
  assert (Hlt : (n < 2 ^ 53)%Z) by lia.
  destruct (floor_log2_spec n 1 Hn ltac:(lia)) as [Hlo Hhi].
  set (e := floor_log2 n 1) in *.
  change (inject_Z 1) with 1%Q in *. rewrite Qmult_1_r in Hlo, Hhi.
  assert (He0 : (0 <= e)%Z).
  { assert (H : (2 ^ 0 < 2 ^ (e + 1))%Q).
    { rewrite pow2_succ. change (2 ^ 0)%Q with 1%Q.
      assert (H1 : (inject_Z 1 <= inject_Z n)%Q) by (rewrite <- Zle_Qle; lia).
      change (inject_Z 1) with 1%Q in H1.
      set (E := (2 ^ e)%Q) in *. lra. }
    apply (Qpower_lt_compat_l_inv 2 0 (e + 1)) in H; [lia|reflexivity]. }
  assert (He : (e < 53)%Z).
  { assert (H : (2 ^ e < 2 ^ 53)%Q).
    { rewrite <- (pow2_Z 53) by lia.
      assert (H1 : (inject_Z n < inject_Z (2 ^ 53))%Q) by (rewrite <- Zlt_Qlt; exact Hlt).
      set (E := (2 ^ e)%Q) in *. set (B := inject_Z (2 ^ 53)) in *. lra. }
    apply (Qpower_lt_compat_l_inv 2 e 53) in H; [lia|reflexivity]. }
  unfold round_pos. cbv zeta. fold e.
  replace (Z.max (e - 52) (-1074)) with (e - 52)%Z by lia.
  destruct (Z.leb_spec 0 (e - 52)) as [Hp|Hp].
  - replace (e - 52)%Z with 0%Z by lia.
    change (1 * 2 ^ 0)%Z with 1%Z. change (2 ^ 0)%Z with 1%Z.
    rewrite round_half_even_1, Z.mul_1_r.
    destruct (Z.leb_spec (2 ^ 1024) n) as [Hbig|_]; [|reflexivity].
    exfalso. assert ((2 ^ 53 < 2 ^ 1024)%Z) by (apply Z.pow_lt_mono_r; lia). lia.
  - rewrite round_half_even_1. f_equal.
    rewrite <- (Qred_int n). apply Qred_complete.
    unfold Qeq. cbn [Qnum Qden].
    rewrite Z2Pos.id by (apply Z.pow_pos_nonneg; lia). lia.
Qed.

(** The conversion of an int64 to float64 keeps every integer of
    magnitude at most [2 ^ 53]. *)
Lemma float_of_int_exact (z : Z) :
  (Z.abs z <= 2 ^ 53)%Z -> float_of_int z = Fin (z # 1).
Proof.
  intros Hz. unfold float_of_int, round64. cbv zeta. rewrite Qred_int.
  cbn [Qnum Qden]. destruct z as [|n|n].
  - reflexivity.
  - apply round_pos_int. lia.
  - rewrite round_pos_int by lia. reflexivity.
Qed.






(** * Re-running the script *)

Lemma script_unfold inp s :
  script inp s =
  match scan inp with
  | inl e => (s, inl e)
  | inr dfs => pipeline dfs s
  end.
Proof.
  unfold script, bind, lift. destruct (scan inp); reflexivity.
Qed.

(** What a run writes and returns is fixed by the listing: nothing and an
    error, the raw file and an error, or both files. *)
Lemma script_effect (inp : listing) :
  (exists e, forall s : store, script inp s = (s, inl e)) \/
  (exists raw e, forall s : store, script inp s = (<[all_data_path := raw]> s, inl e)) \/
  (exists raw final, forall s : store,
     script inp s =
     (<[all_data_imputed_path := final]> (<[all_data_path := raw]> s), inr tt)).
Proof.
  destruct (scan inp) as [e|dfs] eqn:Escan.
  { left. exists e. intros s. rewrite script_unfold, Escan. reflexivity. }
  destruct (pd_concat dfs) as [e|t] eqn:Et.
  { left. exists e. intros s. rewrite script_unfold, Escan, pipeline_unfold, Et. reflexivity. }
  destruct (getitem t columns_to_keep) as [e|raw] eqn:Eraw.
  { left. exists e. intros s.
    rewrite script_unfold, Escan, pipeline_unfold, Et, Eraw. reflexivity. }
  destruct (writable raw) eqn:Ew.
  2:{ left. exists ArrowError. intros s.
      rewrite script_unfold, Escan, pipeline_unfold, Et, Eraw, Ew. reflexivity. }
  destruct (impute raw) as [e|final] eqn:Eimp.
  { right. left. exists raw, e. intros s.
    rewrite script_unfold, Escan, pipeline_unfold, Et, Eraw, Ew, Eimp. reflexivity. }
  destruct (writable final) eqn:Ef.
  - right. right. exists raw, final. intros s.
    rewrite script_unfold, Escan, pipeline_unfold, Et, Eraw, Ew, Eimp, Ef. reflexivity.
  - right. left. exists raw, ArrowError. intros s.
    rewrite script_unfold, Escan, pipeline_unfold, Et, Eraw, Ew, Eimp, Ef. reflexivity.
Qed.

(** C8. For a fixed listing of the input directory (the files found, in
    the order found, with their contents), a second run started from the
    files the first one left returns the same result and leaves the same
    files; and from any other initial state of the output files a run
    returns the same result and every path either holds the same table as
    after the first run or was written by neither. *)
Theorem rerun_gives_same_outputs (inp : listing) (s s' : store) :
  snd (script inp (fst (script inp s))) = snd (script inp s) /\
  fst (script inp (fst (script inp s))) = fst (script inp s) /\
  snd (script inp s') = snd (script inp s) /\
  forall p : string,
    fst (script inp s') !! p = fst (script inp s) !! p \/
    (fst (script inp s') !! p = s' !! p /\ fst (script inp s) !! p = s !! p).
Proof.
  destruct (script_effect inp) as [(e & H)|[(raw & e & H)|(raw & final & H)]];
    rewrite !H; cbn [fst snd].
  - repeat split. intros p. right. split; reflexivity.
  - split; [reflexivity|]. split; [apply insert_insert_eq|]. split; [reflexivity|].
    intros p. rewrite !lookup_insert. case_decide; [left; reflexivity|right; split; reflexivity].
  - split; [reflexivity|]. split; [|split; [reflexivity|]].
    + apply map_eq. intros p. rewrite !lookup_insert.
      repeat case_decide; reflexivity.
    + intros p. rewrite !lookup_insert.
      repeat case_decide; try (left; reflexivity). right. split; reflexivity.
Qed.

(** * The statements above on the sample inputs *)

Ltac by_computation := apply (bool_decide_unpack _); vm_compute; exact I.



Lemma projection_missing_column_witness :
  has_col Sample.drifted "h1h2" = false /\
  exists missing,
    "h1h2" ∈ missing /\
    pipeline [Sample.no_h1h2] ∅ = (∅, inl (KeyError missing)).
Proof.
  split; [reflexivity|].
  destruct (projection_missing_column [Sample.no_h1h2] Sample.drifted ∅ "h1h2"
              eq_refl ltac:(by_computation) eq_refl)
    as (missing & Hin & _ & Hrun).
  exists missing. split; [exact Hin|exact Hrun].
Defined.


Lemma imputation_touches_features_only_witness :
  snd (pipeline [Sample.nf001; Sample.pf002] ∅) = inr tt /\
  index Sample.imputed_table = index Sample.raw_table /\
  get_col Sample.imputed_table "ts" = get_col Sample.raw_table "ts" /\
  get_col Sample.imputed_table "date" = get_col Sample.raw_table "date".
Proof.
  assert (Hok : snd (pipeline [Sample.nf001; Sample.pf002] ∅) = inr tt)
    by (vm_compute; reflexivity).
  split; [exact Hok|].
  destruct (imputation_touches_features_only [Sample.nf001; Sample.pf002] ∅
              Sample.raw_table Sample.imputed_table
              ltac:(by_computation) Hok
              ltac:(vm_compute; reflexivity) ltac:(vm_compute; reflexivity))
    as (Hidx & _ & _ & _ & Hts & _ & _ & Hdate & _).
  split; [exact Hidx|]. split; [exact Hts|exact Hdate].
Defined.

Lemma voicedRMS_not_imputed_witness :
  snd (pipeline [Sample.nf001; Sample.pf002] ∅) = inr tt /\
  cell_at Sample.raw_table "voicedRMS" 0 = Some NaN /\
  cell_at Sample.imputed_table "voicedRMS" 0 = Some NaN.
Proof.
  assert (Hok : snd (pipeline [Sample.nf001; Sample.pf002] ∅) = inr tt)
    by (vm_compute; reflexivity).
  split; [exact Hok|].
  destruct (voicedRMS_not_imputed [Sample.nf001; Sample.pf002] ∅
              Sample.raw_table Sample.imputed_table
              ltac:(by_computation) Hok
              ltac:(vm_compute; reflexivity) ltac:(vm_compute; reflexivity))
    as (_ & _ & _ & _ & Hnan & _).
  split; [reflexivity|]. apply Hnan. reflexivity.
Defined.


(** * The directory scan (lines 12-20) *)

Lemma startswith_iff (s p : string) :
  startswith s p = true <-> exists r, s = String.append p r.
Proof.
  unfold startswith. revert s. induction p as [|a p IH]; intros s.
  - split; [intros _; exists s; reflexivity|].
    intros _. destruct s; reflexivity.
  - destruct s as [|b s]; simpl.
    + split; [discriminate|]. intros [r Hr]. discriminate Hr.
    + destruct (Ascii.ascii_dec a b) as [->|Hne].
      * rewrite IH. split; intros [r Hr]; exists r; [rewrite Hr; reflexivity|].
        injection Hr as ->. reflexivity.
      * split; [discriminate|]. intros [r Hr]. injection Hr as Hab _. congruence.
Qed.

Lemma substring_whole (p : string) : String.substring 0 (String.length p) p = p.
Proof. induction p as [|a p IH]; simpl; [reflexivity|]. rewrite IH. reflexivity. Qed.

Lemma substring_after (r p : string) :
  String.substring (String.length r) (String.length p) (String.append r p) = p.
Proof. induction r as [|a r IH]; simpl; [apply substring_whole|exact IH]. Qed.

Lemma length_append (r p : string) :
  String.length (String.append r p) = (String.length r + String.length p)%nat.
Proof. induction r as [|a r IH]; simpl; [reflexivity|]. rewrite IH. reflexivity. Qed.

Lemma substring_split (s : string) (k : nat) :
  (k <= String.length s)%nat ->
  s = String.append (String.substring 0 k s)
                    (String.substring k (String.length s - k) s).
Proof.
  revert k. induction s as [|a s IH]; intros k Hk; simpl in Hk.
  - replace k with 0%nat by lia. reflexivity.
  - destruct k as [|k].
    + simpl. rewrite substring_whole. reflexivity.
    + change (String a s =
              String a (String.append (String.substring 0 k s)
                          (String.substring k (String.length s - k) s))).
      f_equal. apply IH. lia.
Qed.

Lemma endswith_iff (s p : string) :
  endswith s p = true <-> exists r, s = String.append r p.
Proof.
  unfold endswith. rewrite andb_true_iff, Nat.leb_le, String.eqb_eq. split.
  - intros [Hle Hsub]. exists (String.substring 0 (String.length s - String.length p) s).
    pose proof (substring_split s (String.length s - String.length p) ltac:(lia)) as E.
    replace (String.length s - (String.length s - String.length p))%nat
      with (String.length p) in E by lia.
    rewrite Hsub in E. exact E.
  - intros [r ->]. rewrite length_append. split; [lia|].
    replace (String.length r + String.length p - String.length p)%nat
      with (String.length r) by lia.
    apply substring_after.
Qed.

(** X1. The two name tests of the scan are the prefix and the suffix
    test: [startswith s p] holds exactly when [s] is [p] followed by
    something, [endswith s p] exactly when [s] is something followed by [p]. *)
Theorem name_tests_are_prefix_and_suffix (s p : string) :
  (startswith s p = true <-> exists r, s = String.append p r) /\
  (endswith s p = true <-> exists r, s = String.append r p).
Proof. split; [apply startswith_iff|apply endswith_iff]. Qed.

Lemma read_files_app path es1 es2 :
  read_files path (es1 ++ es2) =
  match read_files path es1 with
  | inl e => inl e
  | inr a =>
      match read_files path es2 with
      | inl e => inl e
      | inr b => inr (a ++ b)
      end
  end.
Proof.
  induction es1 as [|[f c] es1 IH]; simpl.
  - destruct (read_files path es2); reflexivity.
  - destruct (endswith f ".parquet"); [|exact IH].
    destruct c as [df|]; [|reflexivity]. rewrite IH.
    destruct (read_files path es1) as [e|a]; [reflexivity|].
    destruct (read_files path es2); reflexivity.
Qed.

Lemma scan_folders_cons name nd l :
  scan_folders ((name, nd) :: l) =
  match scan_folders [(name, nd)] with
  | inl e => inl e
  | inr a =>
      match scan_folders l with
      | inl e => inl e
      | inr b => inr (a ++ b)
      end
  end.
Proof.
  simpl. destruct (startswith name "NF" || startswith name "PF").
  - destruct nd as [es|].
    + destruct (read_files _ es) as [e|a]; [reflexivity|].
      rewrite app_nil_r. reflexivity.
    + destruct (scan_folders l); reflexivity.
  - destruct (scan_folders l); reflexivity.
Qed.

Lemma scan_folders_append (l1 l2 : list (string * node)) :
  scan_folders (l1 ++ l2) =
  match scan_folders l1 with
  | inl e => inl e
  | inr a =>
      match scan_folders l2 with
      | inl e => inl e
      | inr b => inr (a ++ b)
      end
  end.
Proof.
  induction l1 as [|[name nd] l1 IH].
  - simpl. destruct (scan_folders l2); reflexivity.
  - rewrite <- app_comm_cons, scan_folders_cons, IH, (scan_folders_cons name nd l1).
    destruct (scan_folders [(name, nd)]) as [e|a]; [reflexivity|].
    destruct (scan_folders l1) as [e|b]; [reflexivity|].
    destruct (scan_folders l2) as [e|c]; [reflexivity|].
    rewrite app_assoc. reflexivity.
Qed.

(** X2. Scanning a listing made of two parts gives the files of the first
    part followed by those of the second, in that order; an error in the
    first part comes before one in the second. *)
Theorem scan_folders_app (l1 l2 : list (string * node)) :
  scan_folders (l1 ++ l2) =
  match scan_folders l1 with
  | inl e => inl e
  | inr a =>
      match scan_folders l2 with
      | inl e => inl e
      | inr b => inr (a ++ b)
      end
  end.
Proof. exact (scan_folders_append l1 l2). Qed.

Lemma scan_folders_replace l1 l2 x y :
  scan_folders [x] = scan_folders [y] ->
  scan_folders (l1 ++ x :: l2) = scan_folders (l1 ++ y :: l2).
Proof.
  intros H. rewrite !scan_folders_append.
  destruct x as [n1 d1], y as [n2 d2].
  rewrite (scan_folders_cons n1 d1 l2), (scan_folders_cons n2 d2 l2), H. reflexivity.
Qed.

Lemma scan_folders_drop l1 l2 x :
  scan_folders [x] = inr [] ->
  scan_folders (l1 ++ x :: l2) = scan_folders (l1 ++ l2).
Proof.
  intros H. rewrite !scan_folders_append. destruct x as [n d].
  rewrite (scan_folders_cons n d l2), H.
  destruct (scan_folders l1); [reflexivity|].
  destruct (scan_folders l2); reflexivity.
Qed.

(** X3. An entry of the root that is not a directory, or whose name
    starts with neither NF nor PF, adds nothing to the scan wherever it
    stands, whatever it contains; inside a subject folder an entry whose
    name does not end in .parquet is never read, so it adds nothing and
    cannot fail the run. *)
Theorem scan_skips_unrelated_entries (l1 l2 : list (string * node)) (name : string)
    (nd : node) (es1 es2 : list (string * option DataFrame)) (f : string)
    (c : option DataFrame) :
  ((startswith name "NF" || startswith name "PF") = false \/ nd = Other ->
   scan_folders (l1 ++ (name, nd) :: l2) = scan_folders (l1 ++ l2)) /\
  (endswith f ".parquet" = false ->
   scan_folders (l1 ++ (name, Folder (es1 ++ (f, c) :: es2)) :: l2) =
   scan_folders (l1 ++ (name, Folder (es1 ++ es2)) :: l2)).
Proof.
  split.
  - intros H. apply scan_folders_drop. simpl.
    destruct H as [-> | ->]; [reflexivity|].
    destruct (startswith name "NF" || startswith name "PF"); reflexivity.
  - intros H. apply scan_folders_replace. simpl.
    destruct (startswith name "NF" || startswith name "PF"); [|reflexivity].
    rewrite !read_files_app. simpl. rewrite H. reflexivity.
Qed.

Lemma scan_skips_unrelated_entries_witness :
  scan_folders [("NF001", Folder [("s1.parquet", Some Sample.nf001)]);
                ("XX009", Folder [("s9.parquet", None)])] =
  scan_folders [("NF001", Folder [("s1.parquet", Some Sample.nf001)])] /\
  scan_folders [("NF001", Folder [("notes.txt", None); ("s1.parquet", Some Sample.nf001)])] =
  scan_folders [("NF001", Folder [("s1.parquet", Some Sample.nf001)])].
Proof.
  split.
  - apply (proj1 (scan_skips_unrelated_entries
             [("NF001", Folder [("s1.parquet", Some Sample.nf001)])] []
             "XX009" (Folder [("s9.parquet", None)]) [] [] "" None)).
    left. reflexivity.
  - apply (proj2 (scan_skips_unrelated_entries [] [] "NF001" Other []
             [("s1.parquet", Some Sample.nf001)] "notes.txt" None)).
    reflexivity.
Defined.

(** X4. When a subject folder holds a .parquet entry that cannot be
    decoded, and everything listed before it was read, the run stops with a
    decode error naming that path and writes no file, whatever comes after
    it in the listing. *)
Theorem undecodable_file_aborts (l1 l2 : list (string * node)) (name f : string)
    (es1 es2 : list (string * option DataFrame)) (found1 found2 : list DataFrame)
    (s : store) :
  scan_folders l1 = inr found1 ->
  (startswith name "NF" || startswith name "PF") = true ->
  read_files (path_join base_path name) es1 = inr found2 ->
  endswith f ".parquet" = true ->
  script (Listed (l1 ++ (name, Folder (es1 ++ (f, None) :: es2)) :: l2)) s =
  (s, inl (DecodeError (path_join (path_join base_path name) f))).
Proof.
  intros H1 Hname Hes Hf. rewrite script_unfold. simpl.
  rewrite scan_folders_append, H1. simpl. rewrite Hname.
  rewrite read_files_app, Hes. simpl. rewrite Hf. reflexivity.
Qed.

Lemma undecodable_file_aborts_witness :
  script (Listed [("NF001", Folder [("s1.parquet", Some Sample.nf001)]);
                ("PF002", Folder [("s2.parquet", Some Sample.pf002);
                                  ("s3.parquet", None);
                                  ("s4.parquet", Some Sample.pf002)])]) ∅ =
  (∅, inl (DecodeError "parquets/no_wind/sujetos/PF002/s3.parquet")).
Proof.
  apply (undecodable_file_aborts
           [("NF001", Folder [("s1.parquet", Some Sample.nf001)])] []
           "PF002" "s3.parquet" [("s2.parquet", Some Sample.pf002)]
           [("s4.parquet", Some Sample.pf002)] [Sample.nf001] [Sample.pf002] ∅);
    reflexivity.
Defined.


(** * Which errors the script can end with *)


Lemma getitem_errors df keys e :
  getitem df keys = inl e ->
  exists missing, e = KeyError missing /\ missing <> [] /\
    forall c, c ∈ missing -> c ∈ keys /\ has_col df c = false.
Proof.
  unfold getitem.
  destruct (List.filter (fun k => negb (has_col df k)) keys) as [|m ms] eqn:E; [discriminate|].
  intros [= <-]. exists (m :: ms). split; [reflexivity|]. split; [discriminate|].
  intros c Hc. rewrite <- E in Hc. apply list_elem_of_In, filter_In in Hc as [Hin Hno].
  split; [apply list_elem_of_In; exact Hin|]. apply negb_true_iff. exact Hno.
Qed.

(** Lines 38-43 on a table that has the feature columns fail only in the
    imputer's validation or on the shape check of line 42. *)
Lemma impute_errors raw e :
  has_all raw features = true -> impute raw = inl e ->
  e = NonNumericData \/ e = InfiniteInput \/ e = NoSamples \/
  exists m, (m < 16)%nat /\ e = ShapeMismatch m 16.
Proof.
  intros Hall. rewrite (impute_eq raw Hall).
  destruct (numeric_features raw); cbn [negb]; [|intros [= <-]; auto].
  destruct (finite_features raw); cbn [negb]; [|intros [= <-]; auto].
  destruct (nrows raw =? 0)%nat; [intros [= <-]; auto|].
  destruct (all_observed raw) eqn:Hobs; [discriminate|].
  intros Heq. apply (inj inl) in Heq. subst e. right. right. right.
  eexists. split; [|reflexivity]. apply transform_features_bound. exact Hobs.
Qed.





(** * Projections of projections (lines 27, 37, 38) *)

(** X6. Projecting a projected table on labels taken from the first list
    gives what projecting the original table on them gives; in particular
    projecting it again on the same list gives it back.  So the table
    printed at line 37 is the projected table, and [X] at line 38 is the
    projection of the consolidated table on the features. *)
Theorem projection_composes (df sub : DataFrame) (ks ks' : list string) :
  getitem df ks = inr sub ->
  (forall k, k ∈ ks' -> k ∈ ks) ->
  getitem sub ks' = getitem df ks' /\ getitem sub ks = inr sub.
Proof.
  intros Hsub.
  assert (Hgen : forall ks', (forall k, k ∈ ks' -> k ∈ ks) ->
                             getitem sub ks' = getitem df ks').
  { intros l Hl.
    assert (Hcol : forall k, k ∈ l -> get_col sub k = get_col df k).
    { intros k Hk. rewrite (getitem_get_col _ _ _ k Hsub).
      rewrite decide_True by (apply Hl; exact Hk). reflexivity. }
    destruct (getitem_columns _ _ _ Hsub) as [_ Hidx].
    unfold getitem.
    rewrite (filter_ext_in (fun k => negb (has_col sub k)) (fun k => negb (has_col df k))).
    2: { intros k Hk. unfold has_col. rewrite Hcol by (apply list_elem_of_In; exact Hk).
         reflexivity. }
    rewrite Hidx.
    rewrite (map_ext_in (fun k => (k, default [] (get_col sub k)))
                        (fun k => (k, default [] (get_col df k)))).
    2: { intros k Hk. rewrite Hcol by (apply list_elem_of_In; exact Hk). reflexivity. }
    reflexivity. }
  intros Hin. split; [apply Hgen; exact Hin|].
  rewrite Hgen by auto. exact Hsub.
Qed.

Lemma projection_composes_witness :
  getitem Sample.raw_table features = getitem Sample.consolidated features /\
  getitem Sample.raw_table columns_to_keep = inr Sample.raw_table.
Proof.
  apply (projection_composes Sample.consolidated Sample.raw_table columns_to_keep features).
  - vm_compute. reflexivity.
  - apply features_kept.
Defined.

(** * More on the concatenation (line 23) *)

Lemma filter_all_true {A} (f : A -> bool) (l : list A) :
  (forall x, x ∈ l -> f x = true) -> List.filter f l = l.
Proof.
  induction l as [|x l IH]; intros H; [reflexivity|].
  simpl. rewrite (H x) by left. f_equal. apply IH. intros y Hy. apply H. right. exact Hy.
Qed.

Lemma filter_filter_absorb (p : string -> bool) (y : string) (l : list string) :
  p y = false ->
  List.filter p (List.filter (fun z => negb (String.eqb y z)) l) = List.filter p l.
Proof.
  intros Hy. induction l as [|x l IH]; [reflexivity|]. simpl.
  destruct (String.eqb_spec y x) as [<-|Hne]; simpl.
  - rewrite Hy. exact IH.
  - destruct (p x); [f_equal|]; exact IH.
Qed.

Lemma filter_swap {A} (p q : A -> bool) (l : list A) :
  List.filter p (List.filter q l) = List.filter q (List.filter p l).
Proof.
  induction l as [|x l IH]; [reflexivity|]. simpl.
  destruct (p x) eqn:Ep, (q x) eqn:Eq; simpl; rewrite ?Ep, ?Eq, IH; reflexivity.
Qed.

Lemma unique_filter (p : string -> bool) (l : list string) :
  List.filter p (unique l) = unique (List.filter p l).
Proof.
  induction l as [|y l IH]; [reflexivity|]. simpl.
  destruct (p y) eqn:Ey; simpl.
  - rewrite filter_swap, IH. reflexivity.
  - rewrite filter_filter_absorb by exact Ey. exact IH.
Qed.

(** Labels that were all seen before add nothing to the union. *)
Lemma unique_absorb (l m : list string) :
  NoDup l -> (forall x, x ∈ m -> x ∈ l) -> unique (l ++ m) = l.
Proof.
  intros Hl. revert m. induction Hl as [|x l Hx Hl IH]; intros m Hm.
  - destruct m as [|y m]; [reflexivity|]. specialize (Hm y ltac:(left)). inversion Hm.
  - simpl. f_equal. rewrite unique_filter, List.filter_app.
    rewrite (filter_all_true _ l).
    + apply IH. intros y Hy. apply list_elem_of_In, filter_In in Hy as [Hy Hne].
      apply list_elem_of_In in Hy. specialize (Hm y Hy).
      apply elem_of_cons in Hm as [->|Hm]; [|exact Hm].
      rewrite String.eqb_refl in Hne. discriminate.
    + intros y Hy. apply negb_true_iff, String.eqb_neq. intros ->. contradiction.
Qed.

Lemma union_columns_same (cs : list string) (dfs : list DataFrame) :
  NoDup cs -> dfs <> [] -> Forall (fun df => columns df = cs) dfs ->
  union_columns dfs = cs.
Proof.
  intros Hnd Hne Hall. destruct dfs as [|d dfs]; [contradiction|].
  unfold union_columns. simpl. apply Forall_cons in Hall as [Hd Hrest].
  rewrite Hd. apply unique_absorb; [exact Hnd|].
  intros x Hx. apply list_elem_of_In, in_concat in Hx as (l & Hl & Hx).
  apply in_map_iff in Hl as (df & <- & Hdf).
  rewrite Forall_forall in Hrest. rewrite (Hrest df) in Hx.
  - apply list_elem_of_In. exact Hx.
  - apply list_elem_of_In. exact Hdf.
Qed.

Lemma assoc_ext (l1 l2 : list (string * list cell)) :
  map fst l1 = map fst l2 -> NoDup (map fst l1) ->
  (forall c, assoc c l1 = assoc c l2) -> l1 = l2.
Proof.
  revert l2. induction l1 as [|[k v] l1 IH]; intros [|[k' v'] l2]; simpl;
    intros Hk Hnd Hget; try reflexivity; try discriminate.
  injection Hk as <- Hk. apply NoDup_cons in Hnd as [Hk1 Hnd].
  pose proof (Hget k) as Hkk. rewrite String.eqb_refl in Hkk. injection Hkk as <-.
  f_equal. apply IH; [exact Hk|exact Hnd|].
  intros c. specialize (Hget c).
  destruct (String.eqb_spec c k) as [Heq|Hne]; [subst c|exact Hget].
  transitivity (@None (list cell)).
  - apply assoc_None_keys. exact Hk1.
  - symmetry. apply assoc_None_keys. rewrite <- Hk. exact Hk1.
Qed.

(** Two frames with the same labels and the same columns are the same. *)
Lemma frame_ext (a b : DataFrame) :
  NoDup (columns a) -> columns a = columns b -> index a = index b ->
  (forall c, get_col a c = get_col b c) -> a = b.
Proof.
  destruct a as [ia da], b as [ib db]. unfold columns, get_col. simpl.
  intros Hnd Hc -> Hget. f_equal. apply assoc_ext; assumption.
Qed.

(** X7. Concatenating a single well-formed file gives back its columns,
    in their order and with their data; only the row labels are replaced by
    0, 1, ... *)
Theorem concat_single_file (df : DataFrame) :
  wf df -> pd_concat [df] = inr (mkDF (RangeIndex (nrows df)) (data df)).
Proof.
  intros [Hnd Hlen].
  assert (Ht : exists t, pd_concat [df] = inr t) by (eexists; reflexivity).
  destruct Ht as [t Ht]. rewrite Ht. f_equal.
  pose proof (pd_concat_columns _ _ Ht) as Hcols.
  destruct (pd_concat_index _ _ Ht) as [Hidx _].
  assert (Hu : union_columns [df] = columns df).
  { apply (union_columns_same (columns df)); [exact Hnd|discriminate|].
    constructor; [reflexivity|constructor]. }
  rewrite Hu in Hcols.
  apply frame_ext.
  - rewrite Hcols. exact Hnd.
  - exact Hcols.
  - rewrite Hidx. unfold total_rows. simpl. rewrite Nat.add_0_r. reflexivity.
  - intros c. destruct (decide (c ∈ columns df)) as [Hc|Hc].
    + rewrite (pd_concat_get_col _ _ _ Ht) by (rewrite Hcols; exact Hc).
      simpl. rewrite app_nil_r. unfold piece, get_col. simpl.
      apply has_col_columns in Hc. unfold has_col, get_col in Hc.
      destruct (assoc c (data df)); [reflexivity|discriminate].
    + unfold get_col. simpl.
      transitivity (@None (list cell)).
      * apply assoc_None_keys. fold (columns t). rewrite Hcols. exact Hc.
      * symmetry. apply assoc_None_keys. exact Hc.
Qed.

Lemma concat_single_file_witness :
  pd_concat [Sample.nf001] = inr (mkDF [0; 1]%nat (data Sample.nf001)).
Proof.
  apply (concat_single_file Sample.nf001). by_computation.
Defined.



(** X9. The projection of line 27 succeeds exactly when each of the 21
    columns occurs in at least one of the files: a column that some files
    lack is filled with missing values for them and is no error.  The run
    ends in a key error exactly when some column of the list occurs in no
    file. *)
Theorem projection_needs_a_file_per_column (dfs : list DataFrame) (t : DataFrame)
    (s : store) :
  pd_concat dfs = inr t ->
  (has_all t columns_to_keep = true <->
   forall c, c ∈ columns_to_keep -> exists df, df ∈ dfs /\ c ∈ columns df) /\
  ((exists missing, snd (pipeline dfs s) = inl (KeyError missing)) <->
   exists c, c ∈ columns_to_keep /\ forall df, df ∈ dfs -> c ∉ columns df).
Proof.
  intros Ht.
  assert (Hcol : forall c, has_col t c = true <-> exists df, df ∈ dfs /\ c ∈ columns df).
  { intros c. rewrite has_col_columns, (pd_concat_columns _ _ Ht).
    apply elem_of_union_columns. }
  split.
  - rewrite has_all_spec. split; intros H c Hc; apply Hcol, H, Hc.
  - rewrite pipeline_unfold, Ht. split.
    + intros [missing Hrun].
      destruct (getitem t columns_to_keep) as [e|raw] eqn:Eraw.
      * destruct (getitem_errors _ _ _ Eraw) as (ms & _ & Hne & Hsub).
        destruct ms as [|c ms]; [contradiction|].
        destruct (Hsub c ltac:(left)) as [Hc Hno]. exists c. split; [exact Hc|].
        intros df Hdf Hin.
        assert (Hyes : has_col t c = true) by (apply Hcol; eauto). congruence.
      * pose proof (projected_has_features _ _ Eraw) as Hall.
        destruct (writable raw); [|discriminate Hrun].
        destruct (impute raw) as [e|final] eqn:Eimp.
        -- cbn [snd] in Hrun. apply (inj inl) in Hrun. subst e.
           destruct (impute_errors raw _ Hall Eimp) as [H|[H|[H|(m & _ & H)]]];
             discriminate H.
        -- destruct (writable final); discriminate Hrun.
    + intros (c & Hc & Hnone).
      assert (Hno : has_col t c = false).
      { destruct (has_col t c) eqn:E; [|reflexivity].
        apply Hcol in E as (df & Hdf & Hin). destruct (Hnone df Hdf Hin). }
      destruct (getitem_missing t columns_to_keep c Hc Hno) as (missing & Hg & _).
      exists missing. rewrite Hg. reflexivity.
Qed.

Lemma projection_needs_a_file_per_column_witness :
  has_col Sample.no_h1h2 "h1h2" = false /\
  (exists t, pd_concat [Sample.no_h1h2; Sample.nf001] = inr t /\
             has_all t columns_to_keep = true) /\
  exists missing, snd (pipeline [Sample.no_h1h2] ∅) = inl (KeyError missing).
Proof.
  split; [reflexivity|]. split.
  - eexists. split; [reflexivity|].
    apply (proj1 (projection_needs_a_file_per_column [Sample.no_h1h2; Sample.nf001]
                    _ ∅ eq_refl)).
    intros c Hc. exists Sample.nf001. split; [right; left|].
    revert c Hc. apply Forall_forall. by_computation.
  - apply (proj2 (projection_needs_a_file_per_column [Sample.no_h1h2]
                    Sample.drifted ∅ eq_refl)).
    exists "h1h2". split; [by_computation|].
    intros df Hdf. apply list_elem_of_singleton in Hdf as ->. by_computation.
Defined.


(** * Shape of the outputs, and imputing twice *)

(** X10. In every run that ends well on well-formed files, the raw and
    the imputed table are well-formed: both have exactly the 21 columns,
    in the fixed order, every column of both has as many entries as the
    files have rows together, and the rows are labelled 0, 1, ... *)
Theorem outputs_are_well_formed (dfs : list DataFrame) (s : store)
    (raw final : DataFrame) :
  Forall wf dfs ->
  snd (pipeline dfs s) = inr tt ->
  fst (pipeline dfs s) !! all_data_path = Some raw ->
  fst (pipeline dfs s) !! all_data_imputed_path = Some final ->
  wf raw /\ wf final /\
  columns raw = columns_to_keep /\ columns final = columns_to_keep /\
  nrows raw = total_rows dfs /\ nrows final = total_rows dfs /\
  index final = RangeIndex (total_rows dfs) /\
  forall c col, get_col final c = Some col -> length col = total_rows dfs.
Proof.
  intros Hwf Hok Hr Hf.
  destruct (run_ok_spec dfs s raw final Hwf Hok Hr Hf)
    as (t & _ & _ & Himp & Hwr & Hir & Hnr & Hfr & Hcr & _ & _ & _ & Hcf & _).
  destruct (impute_wf raw final Hwr Hir Hfr Himp) as (Hwfin & Hifin & _ & Hnfin).
  split; [exact Hwr|]. split; [exact Hwfin|]. split; [exact Hcr|].
  split; [rewrite Hcf; exact Hcr|]. split; [exact Hnr|].
  split; [rewrite Hnfin; exact Hnr|].
  split; [rewrite Hifin, Hnfin, Hnr; reflexivity|].
  intros c col Hc. rewrite (wf_col_length _ _ _ Hwfin Hc), Hnfin. exact Hnr.
Qed.

Lemma outputs_are_well_formed_witness :
  wf Sample.imputed_table /\ nrows Sample.imputed_table = 5%nat /\
  columns Sample.imputed_table = columns_to_keep.
Proof.
  destruct (outputs_are_well_formed [Sample.nf001; Sample.pf002] ∅
              Sample.raw_table Sample.imputed_table
              ltac:(by_computation) ltac:(vm_compute; reflexivity)
              ltac:(vm_compute; reflexivity) ltac:(vm_compute; reflexivity))
    as (_ & Hw & _ & Hc & _ & Hn & _).
  split; [exact Hw|]. split; [rewrite Hn; reflexivity|exact Hc].
Defined.

(** An entry of an imputed column is a number, and imputing leaves it as
    it is. *)
Lemma filled_fixed m m' x :
  fill m' (to_float (fill m (to_float x))) = fill m (to_float x).
Proof. destruct x as [|f|z|s [f|]|s]; reflexivity. Qed.

Lemma to_float_filled m x : to_float (fill m (to_float x)) = fill m (to_float x).
Proof. destruct x as [|f|z|s [f|]|s]; reflexivity. Qed.

Lemma filled_convertible m x : convertible (fill m (to_float x)) = true.
Proof. destruct x as [|f|z|s [f|]|s]; reflexivity. Qed.

Lemma observed_filled m col :
  observed col <> [] -> observed (map (fun x => fill m (to_float x)) col) <> [].
Proof.
  induction col as [|x col IH]; [intros H; exact H|].
  change (observed (x :: col))
    with (match to_float x with
          | Num (Fin q) => q :: observed col
          | _ => observed col
          end).
  change (observed (map (fun x => fill m (to_float x)) (x :: col)))
    with (match to_float (fill m (to_float x)) with
          | Num (Fin q) => q :: observed (map (fun x => fill m (to_float x)) col)
          | _ => observed (map (fun x => fill m (to_float x)) col)
          end).
  rewrite to_float_filled.
  destruct (to_float x) as [|[q| |]|z|s v|s]; cbn [fill]; try destruct m;
    intros H; try discriminate; apply IH; exact H.
Qed.

Lemma imputed_col_idem col :
  observed col <> [] -> imputed_col (imputed_col col) = imputed_col col.
Proof.
  intros Hobs. unfold imputed_col at 2 3.
  destruct (ma_median (observed col)) as [m|] eqn:E.
  - unfold imputed_col.
    destruct (ma_median (observed (map (fun x => fill m (to_float x)) col)))
      as [m'|]; [|reflexivity].
    rewrite map_map. apply map_ext. intros x. apply filled_fixed.
  - apply ma_median_None in E. contradiction.
Qed.

Lemma imputed_col_convertible col :
  observed col <> [] -> forallb convertible (imputed_col col) = true.
Proof.
  intros Hobs. unfold imputed_col.
  destruct (ma_median (observed col)) as [m|] eqn:E.
  - apply forallb_forall. intros x Hx. apply in_map_iff in Hx as (y & <- & _).
    apply filled_convertible.
  - apply ma_median_None in E. contradiction.
Qed.

Lemma imputed_col_observed col :
  observed col <> [] -> observed (imputed_col col) <> [].
Proof.
  intros Hobs. unfold imputed_col.
  destruct (ma_median (observed col)) as [m|]; [apply observed_filled|]; exact Hobs.
Qed.

(** X11. Lines 38-43 applied to the table they produced give that table
    back, unless a median it holds is infinite: then the second pass stops
    in the validation of the imputer, which refuses infinities. *)
Theorem imputation_is_idempotent (raw final : DataFrame) :
  wf raw -> index raw = RangeIndex (nrows raw) -> has_all raw features = true ->
  impute raw = inr final ->
  impute final = if finite_features final then inr final else inl InfiniteInput.
Proof.
  intros Hwf Hidx Hall Himp.
  destruct (impute_wf raw final Hwf Hidx Hall Himp) as (Hwf' & Hidx' & Hall' & Hn).
  pose proof (impute_spec raw Hwf Hidx Hall) as Hspec. rewrite Himp in Hspec.
  destruct Hspec as (Hnum & Hfin & Hpos & Hval & Hi & Hc & Hget).
  rewrite all_observed_spec in Hval.
  assert (Hfeat : forall c, c ∈ features ->
            exists col, get_col raw c = Some col /\ observed col <> [] /\
                        get_col final c = Some (imputed_col col)).
  { intros c Hcf. rewrite Hget, decide_True by exact Hcf.
    specialize (Hval c Hcf).
    destruct (get_col raw c) as [col|]; [|contradiction Hval; reflexivity]. eauto. }
  assert (Hnum' : numeric_features final = true).
  { unfold numeric_features, numeric_on. apply forallb_forall. intros c Hcf.
    apply list_elem_of_In in Hcf. destruct (Hfeat c Hcf) as (col & _ & Hobs & Efin).
    rewrite Efin. simpl. apply imputed_col_convertible. exact Hobs. }
  assert (Hval' : all_observed final = true).
  { apply all_observed_spec. intros c Hcf.
    destruct (Hfeat c Hcf) as (col & _ & Hobs & Efin).
    rewrite Efin. simpl. apply imputed_col_observed. exact Hobs. }
  rewrite (impute_eq final Hall'), Hnum', Hval'. cbn [negb].
  destruct (finite_features final); cbn [negb]; [|reflexivity].
  destruct (Nat.eqb_spec (nrows final) 0) as [Hz|_]; [lia|].
  f_equal. destruct (assigned_spec final Hall') as (Hi' & Hc' & Hother & Hfeat').
  apply frame_ext.
  - rewrite Hc'. apply Hwf'.
  - exact Hc'.
  - exact Hi'.
  - intros c. destruct (decide (c ∈ features)) as [Hcf|Hcf]; [|apply Hother, Hcf].
    rewrite (Hfeat' Hwf' Hidx' c Hcf).
    destruct (Hfeat c Hcf) as (col & _ & Hobs & Efin). rewrite Efin. simpl.
    rewrite imputed_col_idem by exact Hobs. reflexivity.
Qed.

Lemma imputation_is_idempotent_witness :
  impute Sample.raw_table = inr Sample.imputed_table /\
  impute Sample.imputed_table = inr Sample.imputed_table.
Proof.
  assert (H : impute Sample.raw_table = inr Sample.imputed_table)
    by (vm_compute; reflexivity).
  split; [exact H|].
  apply (imputation_is_idempotent Sample.raw_table Sample.imputed_table);
    [by_computation|reflexivity|reflexivity|exact H].
Defined.

(** * Alignment of the assigned columns (line 43) *)

Lemma index_of_lookup (idx : list nat) i x :
  NoDup idx -> idx !! i = Some x -> index_of x idx = Some i.
Proof.
  intros Hnd. revert i. induction Hnd as [|y idx Hy Hnd IH]; intros i Hi.
  - destruct i; discriminate.
  - destruct i as [|i]; simpl in *.
    + injection Hi as ->. rewrite Nat.eqb_refl. reflexivity.
    + destruct (Nat.eqb_spec x y) as [->|Hne].
      * exfalso. apply Hy. eapply list_elem_of_lookup_2. exact Hi.
      * rewrite (IH i Hi). reflexivity.
Qed.

Lemma index_of_None (idx : list nat) x : x ∉ idx -> index_of x idx = None.
Proof.
  induction idx as [|y idx IH]; intros Hx; [reflexivity|]. simpl.
  destruct (Nat.eqb_spec x y) as [->|Hne].
  - exfalso. apply Hx. left.
  - rewrite IH; [reflexivity|]. intros H. apply Hx. right. exact H.
Qed.

(** X12. The column assignment of line 43 is by row label: a column
    whose labels are those of the target, without repetition and in the same
    order, arrives as it is; a target row whose label the source does not
    have receives a missing value, whatever the source holds at that
    position. *)
Theorem assignment_aligns_on_labels (idx src_index dst_index : list nat)
    (src : list cell) :
  (NoDup idx -> length src = length idx -> reindex idx src idx = src) /\
  (forall i x, dst_index !! i = Some x -> x ∉ src_index ->
     reindex src_index src dst_index !! i = Some NaN).
Proof.
  split.
  - intros Hnd Hlen. unfold reindex. apply list_eq. intros i.
    change (map ?f ?l) with (f <$> l). rewrite list_lookup_fmap.
    destruct (idx !! i) as [x|] eqn:E; simpl.
    + rewrite (index_of_lookup idx i x Hnd E).
      destruct (src !! i) as [v|] eqn:Ev; [reflexivity|].
      apply lookup_ge_None in Ev. apply lookup_lt_Some in E. lia.
    + symmetry. apply lookup_ge_None. apply lookup_ge_None in E. lia.
  - intros i x Hi Hx. unfold reindex.
    change (map ?f ?l) with (f <$> l). rewrite list_lookup_fmap, Hi. simpl.
    rewrite (index_of_None _ _ Hx). reflexivity.
Qed.

Lemma assignment_aligns_on_labels_witness :
  reindex [10; 11; 12]%nat [Num (Fin 1); NaN; Num (Fin 3)] [10; 11; 12]%nat =
    [Num (Fin 1); NaN; Num (Fin 3)] /\
  reindex [0; 1; 2]%nat [Num (Fin 1); NaN; Num (Fin 3)] [10; 1; 12]%nat !! 0%nat = Some NaN.
Proof.
  destruct (assignment_aligns_on_labels [10; 11; 12]%nat [0; 1; 2]%nat [10; 1; 12]%nat
              [Num (Fin 1); NaN; Num (Fin 3)]) as [Hsame Hmiss].
  split.
  - apply Hsame; [by_computation|reflexivity].
  - apply (Hmiss 0%nat 10%nat); [reflexivity|by_computation].
Defined.

(** * The median and the order of the rows *)

#[local] Instance Qle_transitive : Transitive Qle.
Proof. intros x y z. apply Qle_trans. Qed.

#[local] Instance Qle_total : Total Qle.
Proof.
  intros x y. destruct (Qlt_le_dec x y) as [H|H]; [left; apply Qlt_le_weak, H|right; exact H].
Qed.

Lemma observed_cons x col :
  observed (x :: col) =
  match to_float x with
  | Num (Fin q) => q :: observed col
  | _ => observed col
  end.
Proof. reflexivity. Qed.

Lemma count_le_cons m x vs :
  count_le m (x :: vs) = ((if Qle_bool x m then 1 else 0) + count_le m vs)%nat.
Proof. unfold count_le. simpl. destruct (Qle_bool x m); reflexivity. Qed.

Lemma count_ge_cons m x vs :
  count_ge m (x :: vs) = ((if Qle_bool m x then 1 else 0) + count_ge m vs)%nat.
Proof. unfold count_ge. simpl. destruct (Qle_bool m x); reflexivity. Qed.

Lemma count_le_perm m (l1 l2 : list Q) : l1 ≡ₚ l2 -> count_le m l1 = count_le m l2.
Proof.
  induction 1 as [|x l1 l2 _ IH|x y l|l1 l2 l3 _ IH1 _ IH2].
  - reflexivity.
  - rewrite !count_le_cons, IH. reflexivity.
  - rewrite !count_le_cons. lia.
  - congruence.
Qed.

Lemma count_ge_perm m (l1 l2 : list Q) : l1 ≡ₚ l2 -> count_ge m l1 = count_ge m l2.
Proof.
  induction 1 as [|x l1 l2 _ IH|x y l|l1 l2 l3 _ IH1 _ IH2].
  - reflexivity.
  - rewrite !count_ge_cons, IH. reflexivity.
  - rewrite !count_ge_cons. lia.
  - congruence.
Qed.

(** In a sorted list the entries grow with the position. *)
Lemma sorted_Qnth (l : list Q) i j :
  StronglySorted Qle l -> (i <= j < length l)%nat -> (Qnth l i <= Qnth l j)%Q.
Proof.
  intros Hs. revert i j. induction Hs as [|x l _ IH Hall]; intros i j Hij.
  - simpl in Hij. lia.
  - simpl in Hij. destruct j as [|j].
    + replace i with 0%nat by lia. apply Qle_refl.
    + destruct i as [|i].
      * unfold Qnth. simpl. rewrite Forall_forall in Hall. apply Hall.
        apply list_elem_of_In, nth_In. lia.
      * apply IH. lia.
Qed.

Lemma count_le_prefix m (l : list Q) i :
  (i <= length l)%nat -> (forall k, (k < i)%nat -> (Qnth l k <= m)%Q) ->
  (i <= count_le m l)%nat.
Proof.
  revert i. induction l as [|x l IH]; intros i Hi H.
  - simpl in Hi. lia.
  - destruct i as [|i]; [lia|]. rewrite count_le_cons.
    assert (Hx : Qle_bool x m = true) by (apply Qle_bool_iff, (H 0%nat); lia).
    rewrite Hx. simpl in Hi.
    assert (i <= count_le m l)%nat; [|lia].
    apply IH; [lia|]. intros k Hk. apply (H (S k)). lia.
Qed.

Lemma count_ge_suffix m (l : list Q) h :
  (forall k, (h <= k < length l)%nat -> (m <= Qnth l k)%Q) ->
  (length l - h <= count_ge m l)%nat.
Proof.
  revert h. induction l as [|x l IH]; intros h H; [simpl; lia|].
  rewrite count_ge_cons. destruct h as [|h].
  - assert (Hx : Qle_bool m x = true) by (apply Qle_bool_iff, (H 0%nat); simpl; lia).
    rewrite Hx.
    assert (length l - 0 <= count_ge m l)%nat; [|simpl; lia].
    apply IH. intros k Hk. apply (H (S k)). simpl. lia.
  - assert (length l - h <= count_ge m l)%nat; [|simpl; lia].
    apply IH. intros k Hk. apply (H (S k)). simpl. lia.
Qed.

Lemma counts_disjoint (x1 x2 : Q) (l : list Q) :
  (x1 < x2)%Q -> (count_le x1 l + count_ge x2 l <= length l)%nat.
Proof.
  intros Hlt. induction l as [|v l IH]; [reflexivity|].
  rewrite count_le_cons, count_ge_cons. simpl.
  destruct (Qle_bool v x1) eqn:E1, (Qle_bool x2 v) eqn:E2; try lia.
  apply Qle_bool_iff in E1, E2. exfalso.
  apply (Qlt_irrefl x1). eapply Qlt_le_trans; [exact Hlt|].
  eapply Qle_trans; eassumption.
Qed.

Lemma sorted_position_le (l : list Q) i :
  StronglySorted Qle l -> (i < length l)%nat -> (i < count_le (Qnth l i) l)%nat.
Proof.
  intros Hs Hi.
  assert (S i <= count_le (Qnth l i) l)%nat; [|lia].
  apply count_le_prefix; [lia|].
  intros k Hk. apply sorted_Qnth; [exact Hs|lia].
Qed.

Lemma sorted_position_ge (l : list Q) i :
  StronglySorted Qle l -> (length l - i <= count_ge (Qnth l i) l)%nat.
Proof.
  intros Hs. apply count_ge_suffix. intros k Hk. apply sorted_Qnth; [exact Hs|lia].
Qed.

(** Two sorted arrangements of the same values agree at every position. *)
Lemma sorted_perm_Qnth (l1 l2 : list Q) i :
  StronglySorted Qle l1 -> StronglySorted Qle l2 -> l1 ≡ₚ l2 ->
  (i < length l1)%nat -> (Qnth l1 i == Qnth l2 i)%Q.
Proof.
  intros H1 H2 Hp Hi.
  pose proof (Permutation_length Hp) as Hlen.
  assert (Hhalf : forall a b : list Q, StronglySorted Qle a -> StronglySorted Qle b ->
            a ≡ₚ b -> (i < length a)%nat -> (Qnth b i <= Qnth a i)%Q).
  { intros a b Ha Hb Hab Hia.
    destruct (Qlt_le_dec (Qnth a i) (Qnth b i)) as [Hlt|Hle]; [|exact Hle].
    exfalso.
    pose proof (sorted_position_le a i Ha Hia) as Hle1.
    rewrite (count_le_perm _ _ _ Hab) in Hle1.
    pose proof (sorted_position_ge b i Hb) as Hge2.
    pose proof (counts_disjoint _ _ b Hlt) as Hdis.
    pose proof (Permutation_length Hab) as Hl. lia. }
  apply Qle_antisym.
  - apply (Hhalf l2 l1); [exact H2|exact H1|symmetry; exact Hp|lia].
  - apply (Hhalf l1 l2); assumption.
Qed.

(** The median does not depend on the order of the values. *)
Lemma ma_median_perm (vs1 vs2 : list Q) :
  vs1 ≡ₚ vs2 -> ma_median vs1 = ma_median vs2.
Proof.
  intros Hp. unfold ma_median.
  pose proof (StronglySorted_merge_sort Qle vs1) as Hs1.
  pose proof (StronglySorted_merge_sort Qle vs2) as Hs2.
  assert (Hp' : merge_sort Qle vs1 ≡ₚ merge_sort Qle vs2).
  { rewrite !merge_sort_Permutation. exact Hp. }
  set (l1 := merge_sort Qle vs1) in *. set (l2 := merge_sort Qle vs2) in *.
  rewrite <- (Permutation_length Hp'). set (n := length l1).
  set (h := (n / 2)%nat). set (lo := if Nat.odd n then h else (h - 1)%nat).
  destruct (Nat.eqb_spec n 0) as [|Hn]; [reflexivity|].
  assert (Hb : (lo <= h < n)%nat).
  { unfold lo, h. destruct (Nat.odd n) eqn:Eo; cbv iota.
    - destruct (odd_half n Eo) as [E _]. generalize dependent (n / 2)%nat. intros; lia.
    - pose proof (even_half n Eo) as E. generalize dependent (n / 2)%nat. intros; lia. }
  f_equal. f_equal. apply round64_Qeq.
  rewrite (sorted_perm_Qnth l1 l2 lo Hs1 Hs2 Hp') by (fold n; lia).
  rewrite (sorted_perm_Qnth l1 l2 h Hs1 Hs2 Hp') by (fold n; lia).
  reflexivity.
Qed.

Lemma observed_perm (c1 c2 : list cell) : c1 ≡ₚ c2 -> observed c1 ≡ₚ observed c2.
Proof.
  induction 1 as [|x l1 l2 _ IH|x y l|l1 l2 l3 _ IH1 _ IH2].
  - reflexivity.
  - rewrite !observed_cons.
    destruct (to_float x) as [|[q| |]|z|s v|s]; try exact IH. constructor. exact IH.
  - rewrite !observed_cons.
    destruct (to_float x) as [|[q| |]|z|s v|s], (to_float y) as [|[q'| |]|z'|s' v'|s'];
      try reflexivity. apply perm_swap.
  - etransitivity; eassumption.
Qed.

Lemma concat_pieces_perm (c : string) (dfs dfs' : list DataFrame) :
  dfs ≡ₚ dfs' -> concat (map (piece c) dfs) ≡ₚ concat (map (piece c) dfs').
Proof.
  induction 1 as [|x l1 l2 _ IH|x y l|l1 l2 l3 _ IH1 _ IH2]; simpl.
  - reflexivity.
  - rewrite IH. reflexivity.
  - rewrite !app_assoc. apply Permutation_app_tail, Permutation_app_comm.
  - etransitivity; eassumption.
Qed.

(** X13. The values the imputer fills in do not depend on the order in
    which the files were found: for two orders of the same files, each
    column of one consolidated table is a rearrangement of that column of
    the other, and the two have the same median. *)
Theorem median_independent_of_file_order (dfs dfs' : list DataFrame)
    (t t' : DataFrame) (c : string) :
  dfs ≡ₚ dfs' ->
  pd_concat dfs = inr t -> pd_concat dfs' = inr t' ->
  c ∈ columns t ->
  exists col col',
    get_col t c = Some col /\ get_col t' c = Some col' /\
    col ≡ₚ col' /\
    ma_median (observed col) = ma_median (observed col').
Proof.
  intros Hp Ht Ht' Hc.
  assert (Hc' : c ∈ columns t').
  { rewrite (pd_concat_columns _ _ Ht) in Hc. rewrite (pd_concat_columns _ _ Ht').
    apply elem_of_union_columns in Hc as (df & Hdf & Hin).
    apply elem_of_union_columns. exists df. split; [|exact Hin].
    rewrite <- Hp. exact Hdf. }
  exists (concat (map (piece c) dfs)), (concat (map (piece c) dfs')).
  split; [apply pd_concat_get_col; assumption|].
  split; [apply pd_concat_get_col; assumption|].
  pose proof (concat_pieces_perm c dfs dfs' Hp) as Hcols.
  split; [exact Hcols|].
  apply ma_median_perm, observed_perm. exact Hcols.
Qed.

Lemma median_independent_of_file_order_witness :
  exists col col',
    get_col Sample.consolidated "cppall" = Some col /\
    match pd_concat [Sample.pf002; Sample.nf001] with
    | inr t' => get_col t' "cppall"
    | inl _ => None
    end = Some col' /\
    ma_median (observed col) = ma_median (observed col').
Proof.
  destruct (pd_concat [Sample.pf002; Sample.nf001]) as [e|t'] eqn:Et';
    [discriminate Et'|].
  destruct (median_independent_of_file_order [Sample.nf001; Sample.pf002]
              [Sample.pf002; Sample.nf001] Sample.consolidated t' "cppall"
              ltac:(apply perm_swap) eq_refl Et' ltac:(by_computation))
    as (col & col' & Hc & Hc' & _ & Hm).
  exists col, col'. split; [exact Hc|]. split; [exact Hc'|exact Hm].
Defined.

(** * Integer entries of the feature columns *)

(** In a run that ends well an entry of a feature column that converts to
    a number stands in the imputed file as the float64 it converts to. *)
Lemma run_ok_kept_entry dfs s raw final c col i x :
  Forall wf dfs ->
  snd (pipeline dfs s) = inr tt ->
  fst (pipeline dfs s) !! all_data_path = Some raw ->
  fst (pipeline dfs s) !! all_data_imputed_path = Some final ->
  c ∈ features -> get_col raw c = Some col -> col !! i = Some x ->
  isna (to_float x) = false ->
  cell_at final c i = Some (to_float x).
Proof.
  intros Hwf Hok Hr Hf Hc Ecol Hi Hx.
  destruct (run_ok_spec dfs s raw final Hwf Hok Hr Hf)
    as (t & _ & _ & _ & _ & _ & _ & _ & _ & _ & Hobs & _ & _ & Hget).
  unfold cell_at. rewrite Hget, decide_True by exact Hc. rewrite Ecol. simpl.
  rewrite all_observed_spec in Hobs. specialize (Hobs c Hc). rewrite Ecol in Hobs.
  simpl in Hobs. destruct (ma_median (observed col)) as [m|] eqn:Em.
  - rewrite (imputed_col_lookup col m i x Em Hi). rewrite fill_keeps by exact Hx.
    reflexivity.
  - apply ma_median_None in Em. contradiction.
Qed.

(** X14. In every run that ends well an int64 entry of a feature column
    stands in the imputed file as its float64 conversion: with its own value
    when its magnitude is at most [2 ^ 53], possibly with another one above
    that, as [2 ^ 53 + 1], which becomes [2 ^ 53]. *)
Theorem integer_features_are_converted (dfs : list DataFrame) (s : store)
    (raw final : DataFrame) (c : string) (col : list cell) (i : nat) (z : Z) :
  Forall wf dfs ->
  snd (pipeline dfs s) = inr tt ->
  fst (pipeline dfs s) !! all_data_path = Some raw ->
  fst (pipeline dfs s) !! all_data_imputed_path = Some final ->
  c ∈ features -> get_col raw c = Some col -> col !! i = Some (Int z) ->
  cell_at final c i = Some (Num (float_of_int z)) /\
  ((Z.abs z <= 2 ^ 53)%Z -> cell_at final c i = Some (Num (Fin (z # 1)))) /\
  float_of_int (2 ^ 53 + 1) = Fin (2 ^ 53 # 1).
Proof.
  intros Hwf Hok Hr Hf Hc Ecol Hi.
  assert (H : cell_at final c i = Some (Num (float_of_int z))).
  { apply (run_ok_kept_entry dfs s raw final c col i (Int z)); try assumption.
    reflexivity. }
  split; [exact H|]. split; [|vm_compute; reflexivity].
  intros Hz. rewrite H, (float_of_int_exact z Hz). reflexivity.
Qed.

Lemma integer_features_are_converted_witness :
  snd (pipeline [Sample.counted] ∅) = inr tt /\
  cell_at Sample.counted_imputed "cppall" 1 = Some (Num (Fin 3)) /\
  cell_at Sample.counted_imputed "cppall" 0 = Some (Num (Fin (2 ^ 53 # 1))).
Proof.
  assert (Hok : snd (pipeline [Sample.counted] ∅) = inr tt) by (vm_compute; reflexivity).
  split; [exact Hok|].
  assert (Hwf : Forall wf [Sample.counted]) by by_computation.
  assert (Er : fst (pipeline [Sample.counted] ∅) !! all_data_path
               = Some Sample.counted_raw) by (vm_compute; reflexivity).
  assert (Ef : fst (pipeline [Sample.counted] ∅) !! all_data_imputed_path
               = Some Sample.counted_imputed) by (vm_compute; reflexivity).
  assert (Hc : "cppall" ∈ features) by by_computation.
  assert (Hcol : get_col Sample.counted_raw "cppall" = Some [Int (2 ^ 53 + 1); Int 3])
    by (vm_compute; reflexivity).
  split.
  - apply (integer_features_are_converted [Sample.counted] ∅ Sample.counted_raw
             Sample.counted_imputed "cppall" [Int (2 ^ 53 + 1); Int 3] 1 3
             Hwf Hok Er Ef Hc Hcol eq_refl).
    vm_compute. discriminate.
  - destruct (integer_features_are_converted [Sample.counted] ∅ Sample.counted_raw
             Sample.counted_imputed "cppall" [Int (2 ^ 53 + 1); Int 3] 0 (2 ^ 53 + 1)
             Hwf Hok Er Ef Hc Hcol eq_refl) as (H & _ & E).
    rewrite H, E. reflexivity.
Defined.
